(** * AI Consul Lite: the capture / transcription pipeline

    A shallow embedding of the audio pipeline of the extension:
    - [src/offscreen/offscreen.js]: [resampleAudio], [startCapture],
      [stopCapture], the worker message handler and the keep-alive timer;
    - [workers/whisper-worker.js]: [WhisperPipeline.getInstance] and
      [self.onmessage];
    - [src/background/service-worker.js]: the message router.

    JavaScript numbers are IEEE 754 binary64 values and are modelled by the
    primitive floats of the kernel, so that the arithmetic of the resampler
    is the arithmetic of the program, rounding included. *)

From Stdlib Require Import ZArith NArith List Ascii String Bool Lia Floats.
From stdpp Require Import base option list.
Import ListNotations.

Set Default Proof Using "Type".

(* ================================================================== *)
(** ** JavaScript numbers *)

Module JSNumber.

Local Open Scope Z_scope.

(** The Number nearest to an integer (exact below 2^53). *)
Definition of_Z (z : Z) : float :=
  SF2Prim (binary_normalize prec emax z 0 false).

Definition of_nat (n : nat) : float := of_Z (Z.of_nat n).

(** The signed mantissa of a finite number [(-1)^s * m * 2^e]. *)
Definition mantissa (s : bool) (m : positive) : Z :=
  if s then Z.neg m else Z.pos m.

(** [Math.floor]: NaN, the infinities and the zeros are returned as they
    are; otherwise the greatest integer below the argument. *)
Definition Math_floor (x : float) : float :=
  match Prim2SF x with
  | S754_finite s m e =>
      if 0 <=? e then x else of_Z (Z.shiftr (mantissa s m) (- e))
  | _ => x
  end.

(** [Math.round]: the integer nearest to the argument, ties towards
    +infinity; a result of zero keeps the sign of the argument. *)
Definition Math_round (x : float) : float :=
  match Prim2SF x with
  | S754_finite s m e =>
      if 0 <=? e then x
      else
        let z := Z.shiftr (2 * mantissa s m + Z.shiftl 1 (- e)) (1 - e) in
        if (z =? 0) && s then neg_zero else of_Z z
  | _ => x
  end.

(** [Math.fround]: rounding to binary32, which is what a store into a
    [Float32Array] does to the value. *)
Definition fround (x : float) : float :=
  match Prim2SF x with
  | S754_finite s m e => SF2Prim (binary_normalize 24 128 (mantissa s m) e s)
  | _ => x
  end.

(** [ToIndex], the conversion [new Float32Array(len)] applies to [len]:
    NaN counts as 0, the number is truncated, and a negative, infinite
    or too large length is a [RangeError] (here [None]). *)
Definition ToIndex (x : float) : option nat :=
  match Prim2SF x with
  | S754_nan | S754_zero _ => Some 0%nat
  | S754_infinity _ => None
  | S754_finite s m e =>
      let t := if 0 <=? e then Z.shiftl (Z.pos m) e
               else Z.shiftr (Z.pos m) (- e) in
      if s && (0 <? t) then None
      else if 2 ^ 53 - 1 <? t then None
      else Some (Z.to_nat t)
  end.

(** The element index a Number denotes when it is used as a key of a
    typed array: only a non-negative integer is an index; any other key
    (a fraction, a negative number, NaN, an infinity) reads [undefined]. *)
Definition array_index (k : float) : option nat :=
  match Prim2SF k with
  | S754_zero _ => Some 0%nat
  | S754_finite false m e =>
      if 0 <=? e then Some (Z.to_nat (Z.shiftl (Z.pos m) e))
      else
        let q := Z.shiftr (Z.pos m) (- e) in
        if Z.shiftl q (- e) =? Z.pos m then Some (Z.to_nat q) else None
  | _ => None
  end.

(** [ToNumber] on the result of an element read: [undefined] is NaN. *)
Definition ToNumber (v : option float) : float :=
  match v with
  | Some x => x
  | None => nan
  end.

(** Truthiness of a value that is a Number or [undefined]. *)
Definition truthy (v : option float) : bool :=
  match v with
  | Some x => negb (is_nan x || is_zero x)
  | None => false
  end.

(** [===] on two Numbers: IEEE equality (NaN differs from itself, the
    two zeros are equal). *)
Definition strict_eq (x y : float) : bool := PrimFloat.eqb x y.

End JSNumber.

(* ================================================================== *)
(** ** The resampler ([resampleAudio], offscreen.js) *)

Module Resampler.
Import JSNumber.

(** A [Float32Array] is the list of its elements; objects live in a
    store and are named by their allocation index, so that "the same
    object" is "the same reference". *)
Abbreviation Float32Array := (list float).
Abbreviation ref := nat.
Abbreviation heap := (list (list float)).

Inductive completion (A : Type) : Type :=
| Normal (a : A)
| Throw (e : string).
Arguments Normal {A} a.
Arguments Throw {A} e.

(** [a[k]] for a typed array [a] and a Number [k]. *)
Definition get (a : Float32Array) (k : float) : option float :=
  match array_index k with
  | Some i => a !! i
  | None => None
  end.

(** [r[k]] through the store. *)
Definition load (h : heap) (r : ref) (k : float) : option float :=
  match h !! r with
  | Some a => get a k
  | None => None
  end.

(** [r[i] = v]: the value is rounded to binary32; a store out of range
    does nothing. *)
Definition store (h : heap) (r : ref) (i : nat) (v : float) : heap :=
  match h !! r with
  | Some a => <[r := <[i := fround v]> a]> h
  | None => h
  end.

(** [new Float32Array(len)] allocates a fresh zero-filled array of
    [ToIndex len] elements, or throws a [RangeError]. *)
Definition alloc (h : heap) (n : nat) : ref * heap :=
  (length h, h ++ [replicate n zero]).

(** The body of the loop, lines 25 to 32. *)
Definition indexInOld (ratio : float) (i : nat) : float :=
  (of_nat i * ratio)%float.

Definition nearIndex (ratio : float) (i : nat) : float :=
  Math_floor (indexInOld ratio i).

Definition interpolate (nearValue farValue : option float)
  (fraction : float) : float :=
  (ToNumber nearValue
   + (ToNumber farValue - ToNumber nearValue) * fraction)%float.

Definition body (h : heap) (audioData result : ref) (ratio : float)
  (i : nat) : heap :=
  let fraction := (indexInOld ratio i - nearIndex ratio i)%float in
  let nearValue := load h audioData (nearIndex ratio i) in
  let farValue := load h audioData (nearIndex ratio i + 1)%float in
  store h result i (interpolate nearValue farValue fraction).

(** [for (let i = 0; i < newLength; i++)]: [count] iterations are left,
    the next one is iteration [i].  After [Math.round], [newLength] is an
    integer or NaN, so the test [i < newLength] holds for exactly the
    indices of the array that [new Float32Array(newLength)] allocated. *)
Fixpoint loop (audioData result : ref) (ratio : float)
  (i count : nat) (h : heap) : heap :=
  match count with
  | O => h
  | S count' =>
      loop audioData result ratio (S i) count'
        (body h audioData result ratio i)
  end.

Definition resampleAudio (h : heap) (audioData : ref)
  (fromSampleRate toSampleRate : float) : completion (ref * heap) :=
  if strict_eq fromSampleRate toSampleRate then Normal (audioData, h)
  else
    let ratio := (fromSampleRate / toSampleRate)%float in
    match h !! audioData with
    | None => Throw "TypeError"
    | Some data =>
        let newLength := Math_round (of_nat (length data) / ratio)%float in
        match ToIndex newLength with
        | None => Throw "RangeError"
        | Some n =>
            let (result, h') := alloc h n in
            Normal (result, loop audioData result ratio 0 n h')
        end
    end.

(** The copy of the function the test suite runs
    (tests/voice-feature.test.js), which differs in one line:
    [const farValue = audioData[nearIndex + 1] || nearValue]. *)
Definition body_test (h : heap) (audioData result : ref) (ratio : float)
  (i : nat) : heap :=
  let fraction := (indexInOld ratio i - nearIndex ratio i)%float in
  let nearValue := load h audioData (nearIndex ratio i) in
  let far := load h audioData (nearIndex ratio i + 1)%float in
  let farValue := if truthy far then far else nearValue in
  store h result i (interpolate nearValue farValue fraction).

Fixpoint loop_test (audioData result : ref) (ratio : float)
  (i count : nat) (h : heap) : heap :=
  match count with
  | O => h
  | S count' =>
      loop_test audioData result ratio (S i) count'
        (body_test h audioData result ratio i)
  end.

Definition resampleAudio_test (h : heap) (audioData : ref)
  (fromSampleRate toSampleRate : float) : completion (ref * heap) :=
  if strict_eq fromSampleRate toSampleRate then Normal (audioData, h)
  else
    let ratio := (fromSampleRate / toSampleRate)%float in
    match h !! audioData with
    | None => Throw "TypeError"
    | Some data =>
        let newLength := Math_round (of_nat (length data) / ratio)%float in
        match ToIndex newLength with
        | None => Throw "RangeError"
        | Some n =>
            let (result, h') := alloc h n in
            Normal (result, loop_test audioData result ratio 0 n h')
        end
    end.

End Resampler.

(* ================================================================== *)
(** ** JavaScript strings *)

Module JSString.

Local Open Scope N_scope.

(** A string is its sequence of UTF-16 code units. *)
Definition jsstring := list N.

Definition of_string (s : string) : jsstring :=
  map N_of_ascii (list_ascii_of_string s).

(** WhiteSpace and LineTerminator of ECMAScript: what [trim] strips. *)
Definition is_white_space (c : N) : bool :=
  (c =? 9) || (c =? 10) || (c =? 11) || (c =? 12) || (c =? 13)
  || (c =? 32) || (c =? 160) || (c =? 5760)
  || ((8192 <=? c) && (c <=? 8202))
  || (c =? 8232) || (c =? 8233) || (c =? 8239) || (c =? 8287)
  || (c =? 12288) || (c =? 65279).

Fixpoint trimStart (s : jsstring) : jsstring :=
  match s with
  | [] => []
  | c :: s' => if is_white_space c then trimStart s' else s
  end.

Definition trimEnd (s : jsstring) : jsstring := rev (trimStart (rev s)).

Definition trim (s : jsstring) : jsstring := trimEnd (trimStart s).

(** A string is truthy when it is not empty. *)
Definition nonempty (s : jsstring) : bool :=
  match s with
  | [] => false
  | _ :: _ => true
  end.

End JSString.

(* ================================================================== *)
(** ** Effects: module-level state and exceptions *)

(** A computation reads and writes the state [S] of its execution context
    and either returns a value or throws an [Error] with a message.  What
    was written before a throw stays written. *)
Definition Eff (S A : Type) : Type := S -> (A + string) * S.

Module Eff.
Section Eff.
Context {S : Type}.

Definition ret {A} (a : A) : Eff S A := fun s => (inl a, s).

Definition bind {A B} (c : Eff S A) (k : A -> Eff S B) : Eff S B :=
  fun s =>
    match c s with
    | (inl a, s') => k a s'
    | (inr e, s') => (inr e, s')
    end.

Definition throw {A} (e : string) : Eff S A := fun s => (inr e, s).

(** [try { c } catch (error) { handler(error.message) }] *)
Definition try_catch {A} (c : Eff S A) (handler : string -> Eff S A)
  : Eff S A :=
  fun s =>
    match c s with
    | (inl a, s') => (inl a, s')
    | (inr e, s') => handler e s'
    end.

Definition gets {A} (f : S -> A) : Eff S A := fun s => (inl (f s), s).

Definition modify (f : S -> S) : Eff S unit := fun s => (inl tt, f s).

(** The state a computation leaves behind. *)
Definition exec {A} (c : Eff S A) (s : S) : S := snd (c s).

(** Whether it completed without throwing. *)
Definition returns {A} (c : Eff S A) (s : S) : bool :=
  match fst (c s) with
  | inl _ => true
  | inr _ => false
  end.

(** A sequence of handler runs, each to completion, an exception that
    escapes a handler being an unhandled one that ends that run only. *)
Fixpoint run_all (cs : list (Eff S unit)) (s : S) : S :=
  match cs with
  | [] => s
  | c :: cs' => run_all cs' (exec c s)
  end.
End Eff.
End Eff.

Declare Scope eff_scope.
Delimit Scope eff_scope with eff.
Notation "x <- c ;; k" := (Eff.bind c (fun x => k))
  (at level 20, c at level 99, k at level 200) : eff_scope.
Notation "c ;; k" := (Eff.bind c (fun _ => k))
  (at level 100, k at level 200, right associativity) : eff_scope.

(* ================================================================== *)
(** ** Messages between the contexts *)

Module Runtime.
Import JSString.

(** The messages of [chrome.runtime.sendMessage], by their [type]; the
    two commands carry the [target] they are addressed to. *)
Inductive message : Type :=
| START_CAPTURE (target : string) (streamId : string)
| STOP_CAPTURE (target : string)
| CAPTURE_STARTED
| MODEL_LOADING
| TRANSCRIPT_READY (transcript : jsstring)
| CAPTURE_ERROR (error : string)
| KEEP_ALIVE.

Definition is_CAPTURE_STARTED (m : message) : bool :=
  match m with CAPTURE_STARTED => true | _ => false end.

Definition is_CAPTURE_ERROR (m : message) : bool :=
  match m with CAPTURE_ERROR _ => true | _ => false end.

Definition is_STOP_CAPTURE (m : message) : bool :=
  match m with STOP_CAPTURE _ => true | _ => false end.

(** How many elements of a list satisfy a test. *)
Fixpoint count {A} (p : A -> bool) (l : list A) : nat :=
  match l with
  | [] => 0
  | x :: l' => (if p x then 1 else 0) + count p l'
  end.

End Runtime.

(* ================================================================== *)
(** ** The inference engine (workers/whisper-worker.js) *)

(** The library [@xenova/transformers] is outside the repository: what
    its [pipeline] and the transcriber it builds do for a chunk is an
    input of the model. *)

Module Worker.
Import JSString.
Local Open Scope eff_scope.

(** The values of the [status] field. *)
Inductive lifecycle : Type :=
| model_loading
| model_ready
| model_error
| transcription_error.

(** The objects the worker posts: [{ status }], [{ status, error }] and
    [{ text }]. *)
Record message : Type := {
  text : option jsstring;
  status : option lifecycle;
  error : option string
}.

Definition Status (st : lifecycle) : message :=
  {| text := None; status := Some st; error := None |}.
Definition Failure (st : lifecycle) (e : string) : message :=
  {| text := None; status := Some st; error := Some e |}.
Definition Text (t : jsstring) : message :=
  {| text := Some t; status := None; error := None |}.

(** The promise [pipeline(...)] returns, once settled. *)
Inductive promise : Type :=
| Fulfilled
| Rejected (e : string).

(** What the library does when the worker handles a chunk: the call
    [pipeline(task, MODEL_PATH, ...)], should the worker make it, throws
    or returns a promise; the call [transcriber(audio, ...)] throws (or
    rejects) or yields a transcript, which may be missing or lack a
    text. *)
Inductive construction : Type :=
| Throws (e : string)
| Returns (p : promise).

Inductive inference : Type :=
| Fails (e : string)
| Yields (transcript : option (option jsstring)).

Record chunk : Type := {
  pipeline : construction;
  transcriber : inference
}.

(** [WhisperPipeline.instance] and the messages posted so far. *)
Record state : Type := {
  instance : option promise;
  posted : list message
}.

Definition postMessage (m : message) : Eff state unit :=
  Eff.modify (fun s =>
    {| instance := instance s; posted := posted s ++ [m] |}).

Definition set_instance (p : promise) : Eff state unit :=
  Eff.modify (fun s => {| instance := Some p; posted := posted s |}).

Definition call_pipeline (c : chunk) : Eff state promise :=
  match pipeline c with
  | Throws e => Eff.throw e
  | Returns p => Eff.ret p
  end.

(** [await p] *)
Definition await (p : promise) : Eff state unit :=
  match p with
  | Fulfilled => Eff.ret tt
  | Rejected e => Eff.throw e
  end.

Definition call_transcriber (c : chunk)
  : Eff state (option (option jsstring)) :=
  match transcriber c with
  | Fails e => Eff.throw e
  | Yields t => Eff.ret t
  end.

(** [WhisperPipeline.getInstance]: the promise held by [instance], set
    on the first call.  The assignment is not awaited, so the [catch]
    only sees a construction that throws. *)
Definition getInstance (c : chunk) : Eff state promise :=
  inst <- Eff.gets instance ;;
  match inst with
  | Some p => Eff.ret p
  | None =>
      postMessage (Status model_loading) ;;
      Eff.try_catch
        (p <- call_pipeline c ;;
         set_instance p ;;
         Eff.ret p)
        (fun e =>
           postMessage (Failure model_error e) ;;
           Eff.throw e)
  end.

(** [transcript && transcript.text] *)
Definition has_text (t : option (option jsstring)) : option jsstring :=
  match t with
  | Some (Some s) => if nonempty s then Some s else None
  | _ => None
  end.

(** [self.onmessage] *)
Definition onmessage (c : chunk) : Eff state unit :=
  Eff.try_catch
    (p <- getInstance c ;;
     await p ;;
     postMessage (Status model_ready) ;;
     transcript <- call_transcriber c ;;
     match has_text transcript with
     | Some s => postMessage (Text (trim s))
     | None => postMessage (Text [])
     end)
    (fun e => postMessage (Failure transcription_error e)).

(** One chunk handled from a given [instance]: the instance afterwards
    and the messages posted for this chunk. *)
Definition handle (c : chunk) (inst : option promise)
  : option promise * list message :=
  let s := Eff.exec (onmessage c) {| instance := inst; posted := [] |} in
  (instance s, posted s).

(** The chunks of a session, in order. *)
Fixpoint session (cs : list chunk) (inst : option promise)
  : option promise * list (list message) :=
  match cs with
  | [] => (inst, [])
  | c :: cs' =>
      let (inst', ms) := handle c inst in
      let (inst'', mss) := session cs' inst' in
      (inst'', ms :: mss)
  end.

End Worker.

(* ================================================================== *)
(** ** The capture context (src/offscreen/offscreen.js) *)

(** The handlers of the context run one at a time, each to completion:
    an [async] function is run with the answers of the host to the calls
    it awaits, given by an oracle. The assignments of event handlers
    ([onmessage], [ondataavailable]) and the console output are left out;
    the handlers themselves are functions below. What other handlers do
    while [startCapture] awaits [getUserMedia] is the matter of
    [EventLoop], further down. *)

Module Offscreen.
Import JSString Runtime.
Local Open Scope eff_scope.

(** [MediaRecorder.state] *)
Inductive RecordingState : Type :=
| inactive
| recording
| paused.

(** The host calls of [startCapture]; each may throw, or reject when it
    is awaited: [getUserMedia] does on a denied permission. *)
Inductive api : Type :=
| getUserMedia
| new_AudioContext
| createMediaStreamSource
| connect
| new_Worker
| new_MediaRecorder
| start.

(** Which of them fail during one run of [startCapture], and with which
    error message. *)
Definition oracle : Type := api -> option string.

Definition all_succeed : oracle := fun _ => None.

Definition denied (e : string) : oracle :=
  fun a => match a with getUserMedia => Some e | _ => None end.

(** The host calls that completed, objects being named by their order
    of creation. *)
Inductive call : Type :=
| Acquire (streamId : string) (stream : nat)
| NewContext (context : nat)
| NewSource (context stream source : nat)
| Connect (source : nat)
| NewWorker (worker : nat)
| NewRecorder (stream recorder : nat)
| Start (recorder : nat) (timeslice : N)
| Stop (recorder : nat)
| Disconnect (source : nat)
| Close (context : nat)
| Terminate (worker : nat)
| SetInterval (timer : nat) (delay : N)
| ClearInterval (timer : nat)
| SendMessage (m : message).

(** The variables of the module: [undefined] or [null] is [None]. *)
Record vars : Type := {
  audioContext : option nat;
  streamSource : option nat;
  mediaRecorder : option nat;
  whisperWorker : option nat;
  keepAliveInterval : option nat
}.

(** The objects of the host: the streams handed out, the audio contexts
    (true while open), the source nodes (true while connected), the
    workers (true until terminated), the recorders, the interval timers
    (true until cleared), and the log of calls, oldest first. *)
Record host : Type := {
  streams : nat;
  contexts : list bool;
  sources : list bool;
  workers : list bool;
  recorders : list RecordingState;
  timers : list bool;
  calls : list call
}.

Record state : Type := {
  var : vars;
  world : host
}.

Definition initial : state :=
  {| var := {| audioContext := None; streamSource := None;
               mediaRecorder := None; whisperWorker := None;
               keepAliveInterval := None |};
     world := {| streams := 0; contexts := []; sources := [];
                 workers := []; recorders := []; timers := [];
                 calls := [] |} |}.

(** *** Assignments to the variables *)

Definition set_var (f : vars -> vars) : Eff state unit :=
  Eff.modify (fun s => {| var := f (var s); world := world s |}).

Definition set_audioContext (x : option nat) : Eff state unit :=
  set_var (fun v =>
    {| audioContext := x; streamSource := streamSource v;
       mediaRecorder := mediaRecorder v; whisperWorker := whisperWorker v;
       keepAliveInterval := keepAliveInterval v |}).

Definition set_streamSource (x : option nat) : Eff state unit :=
  set_var (fun v =>
    {| audioContext := audioContext v; streamSource := x;
       mediaRecorder := mediaRecorder v; whisperWorker := whisperWorker v;
       keepAliveInterval := keepAliveInterval v |}).

Definition set_mediaRecorder (x : option nat) : Eff state unit :=
  set_var (fun v =>
    {| audioContext := audioContext v; streamSource := streamSource v;
       mediaRecorder := x; whisperWorker := whisperWorker v;
       keepAliveInterval := keepAliveInterval v |}).

Definition set_whisperWorker (x : option nat) : Eff state unit :=
  set_var (fun v =>
    {| audioContext := audioContext v; streamSource := streamSource v;
       mediaRecorder := mediaRecorder v; whisperWorker := x;
       keepAliveInterval := keepAliveInterval v |}).

Definition set_keepAliveInterval (x : option nat) : Eff state unit :=
  set_var (fun v =>
    {| audioContext := audioContext v; streamSource := streamSource v;
       mediaRecorder := mediaRecorder v; whisperWorker := whisperWorker v;
       keepAliveInterval := x |}).

(** *** The host *)

Definition set_world (f : host -> host) : Eff state unit :=
  Eff.modify (fun s => {| var := var s; world := f (world s) |}).

Definition log (c : call) : Eff state unit :=
  set_world (fun w =>
    {| streams := streams w; contexts := contexts w; sources := sources w;
       workers := workers w; recorders := recorders w; timers := timers w;
       calls := calls w ++ [c] |}).

Definition guard (o : oracle) (a : api) : Eff state unit :=
  match o a with
  | Some e => Eff.throw e
  | None => Eff.ret tt
  end.

Definition mediaDevices_getUserMedia (o : oracle) (streamId : string)
  : Eff state nat :=
  guard o getUserMedia ;;
  stream <- Eff.gets (fun s => streams (world s)) ;;
  set_world (fun w =>
    {| streams := S (streams w); contexts := contexts w;
       sources := sources w; workers := workers w;
       recorders := recorders w; timers := timers w; calls := calls w |}) ;;
  log (Acquire streamId stream) ;;
  Eff.ret stream.

Definition AudioContext_new (o : oracle) : Eff state nat :=
  guard o new_AudioContext ;;
  context <- Eff.gets (fun s => length (contexts (world s))) ;;
  set_world (fun w =>
    {| streams := streams w; contexts := contexts w ++ [true];
       sources := sources w; workers := workers w;
       recorders := recorders w; timers := timers w; calls := calls w |}) ;;
  log (NewContext context) ;;
  Eff.ret context.

Definition AudioContext_createMediaStreamSource (o : oracle)
  (context stream : nat) : Eff state nat :=
  guard o createMediaStreamSource ;;
  source <- Eff.gets (fun s => length (sources (world s))) ;;
  set_world (fun w =>
    {| streams := streams w; contexts := contexts w;
       sources := sources w ++ [false]; workers := workers w;
       recorders := recorders w; timers := timers w; calls := calls w |}) ;;
  log (NewSource context stream source) ;;
  Eff.ret source.

Definition AudioNode_connect (o : oracle) (source : nat) : Eff state unit :=
  guard o connect ;;
  set_world (fun w =>
    {| streams := streams w; contexts := contexts w;
       sources := <[source := true]> (sources w); workers := workers w;
       recorders := recorders w; timers := timers w; calls := calls w |}) ;;
  log (Connect source).

Definition Worker_new (o : oracle) : Eff state nat :=
  guard o new_Worker ;;
  worker <- Eff.gets (fun s => length (workers (world s))) ;;
  set_world (fun w =>
    {| streams := streams w; contexts := contexts w; sources := sources w;
       workers := workers w ++ [true]; recorders := recorders w;
       timers := timers w; calls := calls w |}) ;;
  log (NewWorker worker) ;;
  Eff.ret worker.

Definition MediaRecorder_new (o : oracle) (stream : nat) : Eff state nat :=
  guard o new_MediaRecorder ;;
  recorder <- Eff.gets (fun s => length (recorders (world s))) ;;
  set_world (fun w =>
    {| streams := streams w; contexts := contexts w; sources := sources w;
       workers := workers w; recorders := recorders w ++ [inactive];
       timers := timers w; calls := calls w |}) ;;
  log (NewRecorder stream recorder) ;;
  Eff.ret recorder.

Definition set_recorder (recorder : nat) (st : RecordingState)
  : Eff state unit :=
  set_world (fun w =>
    {| streams := streams w; contexts := contexts w; sources := sources w;
       workers := workers w;
       recorders := <[recorder := st]> (recorders w);
       timers := timers w; calls := calls w |}).

Definition MediaRecorder_start (o : oracle) (recorder : nat) (timeslice : N)
  : Eff state unit :=
  guard o start ;;
  set_recorder recorder recording ;;
  log (Start recorder timeslice).

Definition MediaRecorder_stop (recorder : nat) : Eff state unit :=
  set_recorder recorder inactive ;;
  log (Stop recorder).

Definition AudioNode_disconnect (source : nat) : Eff state unit :=
  set_world (fun w =>
    {| streams := streams w; contexts := contexts w;
       sources := <[source := false]> (sources w); workers := workers w;
       recorders := recorders w; timers := timers w; calls := calls w |}) ;;
  log (Disconnect source).

Definition AudioContext_close (context : nat) : Eff state unit :=
  set_world (fun w =>
    {| streams := streams w; contexts := <[context := false]> (contexts w);
       sources := sources w; workers := workers w;
       recorders := recorders w; timers := timers w; calls := calls w |}) ;;
  log (Close context).

Definition Worker_terminate (worker : nat) : Eff state unit :=
  set_world (fun w =>
    {| streams := streams w; contexts := contexts w; sources := sources w;
       workers := <[worker := false]> (workers w);
       recorders := recorders w; timers := timers w; calls := calls w |}) ;;
  log (Terminate worker).

(** [setInterval] returns the identifier of the new timer, a positive
    number in the browser and so a truthy value: [Some timer] here. *)
Definition window_setInterval (delay : N) : Eff state nat :=
  timer <- Eff.gets (fun s => length (timers (world s))) ;;
  set_world (fun w =>
    {| streams := streams w; contexts := contexts w; sources := sources w;
       workers := workers w; recorders := recorders w;
       timers := timers w ++ [true]; calls := calls w |}) ;;
  log (SetInterval timer delay) ;;
  Eff.ret timer.

Definition window_clearInterval (timer : nat) : Eff state unit :=
  set_world (fun w =>
    {| streams := streams w; contexts := contexts w; sources := sources w;
       workers := workers w; recorders := recorders w;
       timers := <[timer := false]> (timers w); calls := calls w |}) ;;
  log (ClearInterval timer).

Definition runtime_sendMessage (m : message) : Eff state unit :=
  log (SendMessage m).

(** *** The functions of the module *)

(** [mediaRecorder && mediaRecorder.state === 'recording']: the recorder
    when the test holds. *)
Definition recording_now (s : state) : option nat :=
  match mediaRecorder (var s) with
  | Some r =>
      match recorders (world s) !! r with
      | Some recording => Some r
      | _ => None
      end
  | None => None
  end.

(** [startCapture] as declared, lines 40 to 121. *)
Definition originalStartCapture (o : oracle) (streamId : string)
  : Eff state unit :=
  busy <- Eff.gets recording_now ;;
  match busy with
  | Some _ => Eff.ret tt
  | None =>
      Eff.try_catch
        (stream <- mediaDevices_getUserMedia o streamId ;;
         context <- AudioContext_new o ;;
         set_audioContext (Some context) ;;
         source <- AudioContext_createMediaStreamSource o context stream ;;
         set_streamSource (Some source) ;;
         AudioNode_connect o source ;;
         worker <- Eff.gets (fun s => whisperWorker (var s)) ;;
         match worker with
         | Some _ => Eff.ret tt
         | None =>
             worker <- Worker_new o ;;
             set_whisperWorker (Some worker)
         end ;;
         recorder <- MediaRecorder_new o stream ;;
         set_mediaRecorder (Some recorder) ;;
         MediaRecorder_start o recorder 2000%N)
        (fun e => runtime_sendMessage (CAPTURE_ERROR e))
  end.

(** [stopCapture] as declared, lines 126 to 147. *)
Definition originalStopCapture : Eff state unit :=
  busy <- Eff.gets recording_now ;;
  match busy with
  | Some recorder => MediaRecorder_stop recorder
  | None => Eff.ret tt
  end ;;
  source <- Eff.gets (fun s => streamSource (var s)) ;;
  match source with
  | Some source => AudioNode_disconnect source ;; set_streamSource None
  | None => Eff.ret tt
  end ;;
  context <- Eff.gets (fun s => audioContext (var s)) ;;
  match context with
  | Some context => AudioContext_close context ;; set_audioContext None
  | None => Eff.ret tt
  end ;;
  worker <- Eff.gets (fun s => whisperWorker (var s)) ;;
  match worker with
  | Some worker => Worker_terminate worker ;; set_whisperWorker None
  | None => Eff.ret tt
  end.

Definition startKeepAlive : Eff state unit :=
  timer <- Eff.gets (fun s => keepAliveInterval (var s)) ;;
  match timer with
  | Some _ => Eff.ret tt
  | None =>
      timer <- window_setInterval 20000%N ;;
      set_keepAliveInterval (Some timer)
  end.

Definition stopKeepAlive : Eff state unit :=
  timer <- Eff.gets (fun s => keepAliveInterval (var s)) ;;
  match timer with
  | Some timer =>
      window_clearInterval timer ;;
      set_keepAliveInterval None
  | None => Eff.ret tt
  end.

(** The callback of the interval: the host runs it for a timer that has
    not been cleared. *)
Definition keepAlive_tick (timer : nat) : Eff state unit :=
  active <- Eff.gets (fun s => timers (world s) !! timer) ;;
  match active with
  | Some true => runtime_sendMessage KEEP_ALIVE
  | _ => Eff.ret tt
  end.

(** [startCapture] and [stopCapture] after the reassignments of lines
    186 to 197; the listener below calls these. *)
Definition startCapture (o : oracle) (streamId : string) : Eff state unit :=
  originalStartCapture o streamId ;;
  startKeepAlive.

Definition stopCapture : Eff state unit :=
  originalStopCapture ;;
  stopKeepAlive.

(** [chrome.runtime.onMessage] *)
Definition onMessage (o : oracle) (msg : message) : Eff state unit :=
  match msg with
  | START_CAPTURE target streamId =>
      if String.eqb target "offscreen" then startCapture o streamId
      else Eff.ret tt
  | STOP_CAPTURE target =>
      if String.eqb target "offscreen" then stopCapture else Eff.ret tt
  | _ => Eff.ret tt
  end.

(** [whisperWorker.onmessage]: what it sends for one message of the
    worker, in order. *)
Definition forward (m : Worker.message) : list message :=
  match Worker.text m with
  | Some t => if nonempty t then [TRANSCRIPT_READY t] else []
  | None => []
  end
  ++ match Worker.status m with
     | Some Worker.model_loading => [MODEL_LOADING]
     | _ => []
     end
  ++ match Worker.status m with
     | Some Worker.model_ready => [CAPTURE_STARTED]
     | _ => []
     end.

Fixpoint send_all (ms : list message) : Eff state unit :=
  match ms with
  | [] => Eff.ret tt
  | m :: ms' => runtime_sendMessage m ;; send_all ms'
  end.

Definition whisperWorker_onmessage (m : Worker.message) : Eff state unit :=
  send_all (forward m).

(** *** Observations *)

Definition sent_of (c : call) : list message :=
  match c with
  | SendMessage m => [m]
  | _ => []
  end.

(** The messages sent to the orchestrator, oldest first. *)
Definition sent (s : state) : list message :=
  flat_map sent_of (calls (world s)).

Definition is_teardown (c : call) : bool :=
  match c with
  | Stop _ | Disconnect _ | Close _ | Terminate _ | ClearInterval _ => true
  | _ => false
  end.

(** The teardown calls a computation makes from a state. *)
Definition teardown_calls (c : Eff state unit) (s : state) : list call :=
  List.filter is_teardown
    (drop (length (calls (world s))) (calls (world (Eff.exec c s)))).

Definition is_recording (r : RecordingState) : bool :=
  match r with recording => true | _ => false end.

Definition active_recorders (s : state) : nat :=
  count is_recording (recorders (world s)).

Definition live_workers (s : state) : nat :=
  count (fun b : bool => b) (workers (world s)).

Definition active_timers (s : state) : nat :=
  count (fun b : bool => b) (timers (world s)).

(** No resource is held: nothing for [stopCapture] to release. *)
Definition released (s : state) : Prop :=
  recording_now s = None
  /\ streamSource (var s) = None
  /\ audioContext (var s) = None
  /\ whisperWorker (var s) = None
  /\ keepAliveInterval (var s) = None.

(** One teardown call for each resource that is held, in the order of
    [stopCapture]. *)
Definition expected_teardown (s : state) : list call :=
  match recording_now s with Some r => [Stop r] | None => [] end
  ++ match streamSource (var s) with Some n => [Disconnect n] | None => [] end
  ++ match audioContext (var s) with Some n => [Close n] | None => [] end
  ++ match whisperWorker (var s) with Some n => [Terminate n] | None => [] end
  ++ match keepAliveInterval (var s) with
     | Some n => [ClearInterval n]
     | None => []
     end.

End Offscreen.

(* ================================================================== *)
(** ** The orchestrator (src/background/service-worker.js) *)

Module ServiceWorker.
Import JSString Runtime.
Local Open Scope eff_scope.

Inductive action : Type :=
| setBadgeText (text : string) (tabId : option nat)
| setBadgeBackgroundColor (color : string)
| sendMessage (m : message)
| saveRecentTranscript (transcript : jsstring)
| sendResponse.

(** [capturingTabs], in insertion order, and what the worker did. *)
Record state : Type := {
  capturingTabs : list nat;
  actions : list action
}.

Definition act (a : action) : Eff state unit :=
  Eff.modify (fun s =>
    {| capturingTabs := capturingTabs s; actions := actions s ++ [a] |}).

Definition set_capturingTabs (f : list nat -> list nat) : Eff state unit :=
  Eff.modify (fun s =>
    {| capturingTabs := f (capturingTabs s); actions := actions s |}).

Fixpoint clear_badges (tabs : list nat) : Eff state unit :=
  match tabs with
  | [] => Eff.ret tt
  | tab :: tabs' => act (setBadgeText "" (Some tab)) ;; clear_badges tabs'
  end.

(** [stopCapture(tabId)]; the argument is missing, or falsy, when the
    call is not about one tab. *)
Definition stopCapture (tabId : option nat) : Eff state unit :=
  act (sendMessage (STOP_CAPTURE "offscreen")) ;;
  match tabId with
  | Some (S _ as tab) =>
      set_capturingTabs (List.filter (fun t => negb (Nat.eqb t tab))) ;;
      act (setBadgeText "" (Some tab))
  | _ =>
      tabs <- Eff.gets capturingTabs ;;
      clear_badges tabs ;;
      set_capturingTabs (fun _ => [])
  end.

(** The branches of [chrome.runtime.onMessage] for the messages of the
    capture context. *)
Definition onMessage (msg : message) : Eff state unit :=
  match msg with
  | KEEP_ALIVE => act sendResponse
  | CAPTURE_STARTED =>
      act (setBadgeText "ON" None) ;;
      act (setBadgeBackgroundColor "#4688F1")
  | MODEL_LOADING =>
      act (setBadgeText "..." None) ;;
      act (setBadgeBackgroundColor "#FA9B3D")
  | TRANSCRIPT_READY transcript => act (saveRecentTranscript transcript)
  | CAPTURE_ERROR _ =>
      act (setBadgeText "ERR" None) ;;
      act (setBadgeBackgroundColor "#ef4444") ;;
      stopCapture None
  | _ => Eff.ret tt
  end.

(** [chrome.tabs.onRemoved] *)
Definition onRemoved (tabId : nat) : Eff state unit :=
  tabs <- Eff.gets capturingTabs ;;
  if existsb (Nat.eqb tabId) tabs then stopCapture (Some tabId)
  else Eff.ret tt.

(** The commands the worker sends to the capture context. *)
Definition commands (s : state) : list message :=
  flat_map (fun a => match a with sendMessage m => [m] | _ => [] end)
    (actions s).

End ServiceWorker.


(* ================================================================== *)
(** ** The contexts together, and the words of the specification *)

Module Pipeline.
Import JSNumber JSString Runtime.

(** What the capture context sends to the orchestrator for the messages
    the worker posted, in order. *)
Definition relayed (posts : list Worker.message) : list message :=
  flat_map Offscreen.forward posts.

(** The messages the worker posts over the chunks of a session that
    starts with no model loaded, and what the orchestrator receives for
    them. *)
Definition session_posts (cs : list Worker.chunk) : list Worker.message :=
  concat (snd (Worker.session cs None)).

Definition session_sent (cs : list Worker.chunk) : list message :=
  relayed (session_posts cs).

(** The orchestrator handling the messages it receives, in order. *)
Definition orchestrate (ms : list message)
  : ServiceWorker.state -> ServiceWorker.state :=
  Eff.run_all (map ServiceWorker.onMessage ms).

(** The model is available to a chunk: it is loaded already, or this is
    the first chunk and the construction succeeds. *)
Definition model_loads (c : Worker.chunk) (inst : option Worker.promise)
  : Prop :=
  inst = Some Worker.Fulfilled
  \/ (inst = None /\ Worker.pipeline c = Worker.Returns Worker.Fulfilled).

(** The text of a transcript after trimming, a missing transcript or text
    counting as the empty string. *)
Definition trimmed (transcript : option (option jsstring)) : jsstring :=
  match transcript with
  | Some (Some s) => trim s
  | _ => []
  end.

Definition is_model_ready (m : Worker.message) : bool :=
  match Worker.status m with
  | Some Worker.model_ready => true
  | _ => false
  end.

Definition is_transcription_error (m : Worker.message) : bool :=
  match Worker.status m with
  | Some Worker.transcription_error => true
  | _ => false
  end.

(** The output length of the specification, section 4.3:
    [ratio = sourceRate / targetRate] and
    [outputLength = round(inputLength / ratio)]. *)
Definition spec_outputLength (inputLength : nat)
  (sourceRate targetRate : float) : float :=
  let ratio := (sourceRate / targetRate)%float in
  Math_round (of_nat inputLength / ratio)%float.

(** Nothing is live in the capture context: no recorder records, no
    worker and no timer exists, and the variables hold none. *)
Definition quiescent (s : Offscreen.state) : Prop :=
  Offscreen.active_recorders s = 0
  /\ Offscreen.live_workers s = 0
  /\ Offscreen.active_timers s = 0
  /\ Offscreen.whisperWorker (Offscreen.var s) = None
  /\ Offscreen.keepAliveInterval (Offscreen.var s) = None.

(** Inputs of the examples. *)
Definition three_samples : list (list float) :=
  [[0.25; 0.5; 0.75]%float].

Definition spoken : Worker.chunk :=
  {| Worker.pipeline := Worker.Returns Worker.Fulfilled;
     Worker.transcriber :=
       Worker.Yields (Some (Some (of_string " hello "))) |}.

Definition silent : Worker.chunk :=
  {| Worker.pipeline := Worker.Returns Worker.Fulfilled;
     Worker.transcriber := Worker.Yields (Some (Some (of_string "  "))) |}.

Definition garbled : Worker.chunk :=
  {| Worker.pipeline := Worker.Returns Worker.Fulfilled;
     Worker.transcriber := Worker.Fails "invalid audio" |}.

Definition unloadable : Worker.chunk :=
  {| Worker.pipeline := Worker.Throws "model not found";
     Worker.transcriber := Worker.Yields None |}.

Definition one_tab : ServiceWorker.state :=
  {| ServiceWorker.capturingTabs := [7];
     ServiceWorker.actions := [] |}.

End Pipeline.

(* ================================================================== *)
(** ** The samples of the resampler *)

Module Interpolation.
Import JSNumber Resampler.

(** The value the loop stores at index [i], lines 25 to 32: the binary32
    rounding of the interpolation between the sample at
    [floor(i * ratio)] and the next one, a read outside the array being
    [undefined]. *)
Definition sample (data : list float) (ratio : float) (i : nat) : float :=
  fround
    (interpolate (get data (nearIndex ratio i))
       (get data (nearIndex ratio i + 1)%float)
       (indexInOld ratio i - nearIndex ratio i)%float).

End Interpolation.

(* ================================================================== *)
(** ** The chunks of the recorder ([mediaRecorder.ondataavailable]) *)

Module Chunking.
Import JSNumber Resampler.
Local Open Scope eff_scope.

(** What [decodeAudioData] makes of the bytes of a chunk: it rejects, or
    it resolves to a buffer, of which the handler reads channel 0 and the
    sample rate. *)
Inductive decoding : Type :=
| Undecodable (e : string)
| Decoded (channel0 : list float) (sampleRate : float).

(** A [dataavailable] event: the size of its blob and its decoding. *)
Record blob_event : Type := {
  size : N;
  decoding_of : decoding
}.

(** The capture context with its typed arrays and the audio the worker
    has received, oldest first. *)
Record state : Type := {
  capture : Offscreen.state;
  store : list (list float);
  inbox : list (list float)
}.

(** [audioBuffer.getChannelData(0)]: the samples as a typed array. *)
Definition getChannelData (channel0 : list float) : Eff state nat :=
  fun s =>
    (inl (length (store s)),
     {| capture := capture s; store := store s ++ [channel0];
        inbox := inbox s |}).

(** [resampleAudio] on the typed arrays of the context. *)
Definition resample (audioData : nat) (fromSampleRate toSampleRate : float)
  : Eff state nat :=
  fun s =>
    match resampleAudio (store s) audioData fromSampleRate toSampleRate with
    | Normal (result, h') =>
        (inl result,
         {| capture := capture s; store := h'; inbox := inbox s |})
    | Throw e => (inr e, s)
    end.

(** [whisperWorker.postMessage({ audio }, [audio.buffer])]: the worker
    receives the samples and the buffer is transferred, which leaves the
    array of the sender detached, with no element. *)
Definition postMessage_transfer (audio : nat) : Eff state unit :=
  fun s =>
    match store s !! audio with
    | Some samples =>
        (inl tt,
         {| capture := capture s; store := <[audio := []]> (store s);
            inbox := inbox s ++ [samples] |})
    | None => (inr "TypeError"%string, s)
    end.

(** [mediaRecorder.ondataavailable], lines 90 to 108. *)
Definition ondataavailable (ev : blob_event) : Eff state unit :=
  if (0 <? size ev)%N then
    context <- Eff.gets (fun s =>
                 Offscreen.audioContext (Offscreen.var (capture s))) ;;
    match context with
    | None => Eff.throw "TypeError"
    | Some _ =>
        match decoding_of ev with
        | Undecodable e => Eff.throw e
        | Decoded channel0 originalSampleRate =>
            pcmData <- getChannelData channel0 ;;
            resampledPcm <- resample pcmData originalSampleRate 16000 ;;
            worker <- Eff.gets (fun s =>
                        Offscreen.whisperWorker (Offscreen.var (capture s))) ;;
            match worker with
            | None => Eff.throw "TypeError"
            | Some _ => postMessage_transfer resampledPcm
            end
        end
    end
  else Eff.ret tt.
End Chunking.

(* ================================================================== *)
(** ** The events of the capture context *)

Module Session.
Import Runtime Offscreen.

(** The events of the context when each is handled to its end before
    the next comes: a start is then one event, the promise of
    [getUserMedia] settling before anything else happens. This is one
    order of the tasks of the context; [EventLoop] has the others.

    What the capture context handles: the two commands of the
    orchestrator (a start comes with the answers of the host to its
    calls), a tick of an interval timer, a message of the worker. *)
Inductive event : Type :=
| Start (o : oracle) (streamId : string)
| Stop
| Tick (timer : nat)
| Posted (m : Worker.message).

Definition handler (ev : event) : Eff state unit :=
  match ev with
  | Start o streamId => onMessage o (START_CAPTURE "offscreen" streamId)
  | Stop => onMessage all_succeed (STOP_CAPTURE "offscreen")
  | Tick timer => keepAlive_tick timer
  | Posted m => whisperWorker_onmessage m
  end.

(** The context after a sequence of events, each handled to its end,
    from a state. *)
Definition run (evs : list event) : state -> state :=
  Eff.run_all (map handler evs).

(** The recorder is created and then refuses to start. *)
Definition start_fails (e : string) : oracle :=
  fun a => match a with start => Some e | _ => None end.

(** The host calls [startCapture] makes, in order; the worker is only
    created when the variable holds none. *)
Definition calls_of_start (has_worker : bool) : list api :=
  [getUserMedia; new_AudioContext; createMediaStreamSource; connect]
  ++ (if has_worker then [] else [new_Worker])
  ++ [new_MediaRecorder; start].

(** The error of the first call that fails, if one does. *)
Fixpoint first_failure (o : oracle) (steps : list api) : option string :=
  match steps with
  | [] => None
  | a :: steps' =>
      match o a with
      | Some e => Some e
      | None => first_failure o steps'
      end
  end.

(** At most one element of a list satisfies a test, at the index a
    variable holds; and none does. *)
Definition only_at {A} (p : A -> bool) (l : list A) (v : option nat) : Prop :=
  forall i x, l !! i = Some x -> p x = true -> v = Some i.

Definition none_of {A} (p : A -> bool) (l : list A) : Prop :=
  forall i x, l !! i = Some x -> p x = false.

End Session.

(* ================================================================== *)
(** ** The messages of the engine, counted *)

Module Engine.
Import Worker.
(** How often a session constructs the pipeline: once for every chunk
    up to and including the first whose construction returns. *)
Fixpoint attempts (cs : list chunk) : nat :=
  match cs with
  | [] => 0
  | c :: cs' =>
      match pipeline c with
      | Throws _ => S (attempts cs')
      | Returns _ => 1
      end
  end.

Definition is_model_loading (m : message) : bool :=
  match status m with
  | Some model_loading => true
  | _ => false
  end.

Definition is_model_error (m : message) : bool :=
  match status m with
  | Some model_error => true
  | _ => false
  end.

(** The message that closes the handling of a chunk: its text, or its
    [transcription_error]. *)
Definition is_answer (m : message) : bool :=
  match text m, status m with
  | Some _, _ => true
  | None, Some transcription_error => true
  | None, _ => false
  end.
Definition is_TRANSCRIPT_READY (m : Runtime.message) : bool :=
  match m with
  | Runtime.TRANSCRIPT_READY _ => true
  | _ => false
  end.

(** The inference of a chunk yields a text that is not empty once it is
    trimmed. *)
Definition speaks (c : chunk) : bool :=
  match transcriber c with
  | Yields t => JSString.nonempty (Pipeline.trimmed t)
  | Fails _ => false
  end.

End Engine.

(* ================================================================== *)
(** ** The history of transcripts (src/lib/storage.js) *)

Module Storage.
Import JSString.
Local Open Scope Z_scope.

(** An element of the array stored under [recentTranscripts]; the
    timestamp is [Date.now()], in milliseconds. *)
Record entry : Type := {
  transcript : jsstring;
  timestamp : Z
}.

(** [chrome.storage.sync] at the key [recentTranscripts] when what it
    holds is an array of entries: the array stored, or nothing when the
    key is not set. *)
Abbreviation sync := (option (list entry)).

(** Whether the [get] and the [set] of the host reject during a call,
    and with which message. *)
Record faults : Type := {
  get_rejects : option string;
  set_rejects : option string
}.

Definition no_faults : faults :=
  {| get_rejects := None; set_rejects := None |}.

(** [{ success: true }] and [{ success: false, error }] *)
Inductive outcome : Type :=
| success
| failure (error : string).

(** [getPref('recentTranscripts', defaultValue)] *)
Definition getPref (f : faults) (defaultValue : list entry) (s : sync)
  : list entry :=
  match get_rejects f with
  | Some _ => defaultValue
  | None =>
      match s with
      | Some value => value
      | None => defaultValue
      end
  end.

(** [savePref('recentTranscripts', value)] *)
Definition savePref (f : faults) (value : list entry) (s : sync)
  : outcome * sync :=
  match set_rejects f with
  | Some e => (failure e, s)
  | None => (success, Some value)
  end.

(** [saveRecentTranscript(transcript, timestamp)], run to completion,
    on a key that holds an array or is not set: nothing in its [try]
    block throws then, [getPref] and [savePref] catching their own
    errors. [AnyStorage] has the key holding any value, and with it the
    [catch] of line 105. *)
Definition saveRecentTranscript (f : faults) (transcript : jsstring)
  (timestamp : Z) (s : sync) : outcome * sync :=
  let transcripts := getPref f [] s in
  let transcripts :=
    {| transcript := transcript; timestamp := timestamp |} :: transcripts in
  let trimmed := take 10 transcripts in
  let (_, s') := savePref f trimmed s in
  (success, s').

(** [getRecentTranscripts(maxAge)] called at time [now]. *)
Definition getRecentTranscripts (f : faults) (now maxAge : Z) (s : sync)
  : list entry :=
  let transcripts := getPref f [] s in
  let cutoff := now - maxAge in
  List.filter (fun t => cutoff <? timestamp t) transcripts.

(** Saves in a row, oldest first, the host never failing. *)
Fixpoint save_all (items : list entry) (s : sync) : sync :=
  match items with
  | [] => s
  | item :: items' =>
      save_all items'
        (snd (saveRecentTranscript no_faults (transcript item)
                (timestamp item) s))
  end.

Definition stored (s : sync) : list entry := getPref no_faults [] s.
End Storage.

(* ================================================================== *)
(** ** The tasks of the capture context *)

(** [startCapture] is an [async] function that the listener calls and
    does not await. A call runs to the [await] of line 46 and returns;
    the rest of the function runs in a later task, once the promise of
    [getUserMedia] has settled, and the wrapper of lines 187 to 190
    resumes after that. Other tasks run in between: a second start finds
    the recorder of the first not yet created, a stop finds nothing to
    release. The loop below takes the tasks in every order in which they
    can come. It lets a wrapper wait longer than the browser does, which
    resumes it before the next task; what holds of every order of the
    loop holds of those of the browser. *)

Module EventLoop.
Import Runtime Offscreen.
Local Open Scope eff_scope.

(** [startCapture] as declared, from the [await] of line 46 on: the
    promise of [getUserMedia] settles as the oracle says and the function
    runs to its end, having no other [await]. *)
Definition originalStartCapture_resumed (o : oracle) (streamId : string)
  : Eff state unit :=
  Eff.try_catch
    (stream <- mediaDevices_getUserMedia o streamId ;;
     context <- AudioContext_new o ;;
     set_audioContext (Some context) ;;
     source <- AudioContext_createMediaStreamSource o context stream ;;
     set_streamSource (Some source) ;;
     AudioNode_connect o source ;;
     worker <- Eff.gets (fun s => whisperWorker (var s)) ;;
     match worker with
     | Some _ => Eff.ret tt
     | None =>
         worker <- Worker_new o ;;
         set_whisperWorker (Some worker)
     end ;;
     recorder <- MediaRecorder_new o stream ;;
     set_mediaRecorder (Some recorder) ;;
     MediaRecorder_start o recorder 2000%N)
    (fun e => runtime_sendMessage (CAPTURE_ERROR e)).

(** The context between two tasks: the state of the module, the stream
    ids of the calls of [getUserMedia] whose promise has not settled,
    oldest first, and the number of calls of [startCapture] as declared
    that have returned and whose wrapper has not resumed. *)
Record loop : Type := {
  page : state;
  awaiting : list string;
  returned : nat
}.

Definition boot : loop :=
  {| page := initial; awaiting := []; returned := 0 |}.

Definition between_tasks (s : state) : loop :=
  {| page := s; awaiting := []; returned := 0 |}.

(** A task: a message of the orchestrator for the listener; a promise of
    [getUserMedia] settling, the oracle answering for it and for the host
    calls that follow; a wrapper resuming; a tick of an interval timer; a
    message of the worker. *)
Inductive task : Type :=
| Command (msg : message)
| Settles (k : nat) (o : oracle)
| Continues
| Interval (timer : nat)
| WorkerMessage (m : Worker.message).

Definition in_page (c : Eff state unit) (l : loop) : loop :=
  {| page := Eff.exec c (page l); awaiting := awaiting l;
     returned := returned l |}.

(** The listener of lines 150 to 160 with [startCapture] run to its
    first [await]: the guard of line 41 returns, or [getUserMedia] is
    called. *)
Definition listener (msg : message) (l : loop) : loop :=
  match msg with
  | START_CAPTURE target streamId =>
      if String.eqb target "offscreen" then
        match recording_now (page l) with
        | Some _ =>
            {| page := page l; awaiting := awaiting l;
               returned := S (returned l) |}
        | None =>
            {| page := page l; awaiting := awaiting l ++ [streamId];
               returned := returned l |}
        end
      else l
  | STOP_CAPTURE target =>
      if String.eqb target "offscreen" then in_page stopCapture l else l
  | _ => l
  end.

(** One task; a task that cannot come (no such promise is pending, no
    wrapper waits) does nothing. *)
Definition step (t : task) (l : loop) : loop :=
  match t with
  | Command msg => listener msg l
  | Settles k o =>
      match awaiting l !! k with
      | Some streamId =>
          {| page :=
               Eff.exec (originalStartCapture_resumed o streamId) (page l);
             awaiting := delete k (awaiting l);
             returned := S (returned l) |}
      | None => l
      end
  | Continues =>
      match returned l with
      | S n =>
          {| page := Eff.exec startKeepAlive (page l);
             awaiting := awaiting l; returned := n |}
      | O => l
      end
  | Interval timer => in_page (keepAlive_tick timer) l
  | WorkerMessage m => in_page (whisperWorker_onmessage m) l
  end.

Fixpoint run (ts : list task) (l : loop) : loop :=
  match ts with
  | [] => l
  | t :: ts' => run ts' (step t l)
  end.

(** The tasks of an event of [Session], when nothing comes between a
    start and the settling of its promise. *)
Definition in_turn (ev : Session.event) : list task :=
  match ev with
  | Session.Start o streamId =>
      [Command (START_CAPTURE "offscreen" streamId); Settles 0 o; Continues]
  | Session.Stop => [Command (STOP_CAPTURE "offscreen")]
  | Session.Tick timer => [Interval timer]
  | Session.Posted m => [WorkerMessage m]
  end.

(** Each live worker and each running timer is the one its variable
    holds. *)
Definition tracked (s : state) : Prop :=
  Session.only_at (fun b : bool => b) (workers (world s))
    (whisperWorker (var s))
  /\ Session.only_at (fun b : bool => b) (timers (world s))
       (keepAliveInterval (var s)).

(** A recorder that records and that the variable no longer holds. *)
Definition orphaned (r : nat) (s : state) : Prop :=
  recorders (world s) !! r = Some recording
  /\ mediaRecorder (var s) <> Some r.

(** No start is under way and no timer runs. *)
Definition idle (l : loop) : Prop :=
  awaiting l = [] /\ returned l = 0
  /\ Session.none_of (fun b : bool => b) (timers (world (page l))).

Definition is_KEEP_ALIVE (m : message) : bool :=
  match m with KEEP_ALIVE => true | _ => false end.

Definition is_START_CAPTURE (t : task) : bool :=
  match t with
  | Command (START_CAPTURE _ _) => true
  | _ => false
  end.

(** Two starts, the second received before the promise of the first has
    settled; both promises resolve and every later host call succeeds. *)
Definition overlapped_starts (pending : nat) (a b : string) : list task :=
  [Command (START_CAPTURE "offscreen" a);
   Command (START_CAPTURE "offscreen" b);
   Settles pending all_succeed; Continues;
   Settles pending all_succeed; Continues].

(** A start, and a stop received before the promise of the start has
    settled; the promise resolves and every later host call succeeds. *)
Definition stop_while_starting (pending : nat) (a : string) : list task :=
  [Command (START_CAPTURE "offscreen" a);
   Command (STOP_CAPTURE "offscreen");
   Settles pending all_succeed; Continues].

(** The promise [k] settles; the orchestrator handles what the capture
    context sent for it; the capture context handles other tasks and
    then the commands the orchestrator sent back. *)
Definition error_exchange (k : nat) (o : oracle) (others : list task)
  (l : loop) (sw : ServiceWorker.state) : loop * ServiceWorker.state :=
  let l1 := step (Settles k o) l in
  let reports := drop (length (sent (page l))) (sent (page l1)) in
  let sw1 := Pipeline.orchestrate reports sw in
  let commands :=
    drop (length (ServiceWorker.commands sw)) (ServiceWorker.commands sw1) in
  (run (others ++ map Command commands) l1, sw1).

End EventLoop.

(* ================================================================== *)
(** ** The engine when a promise does not settle *)

(** The handler of a chunk awaits the instance (line 205) and the
    transcript (line 210). Neither promise has to settle while the
    worker lives: the library may leave it pending, and [terminate] ends
    the worker while it waits. The handler then stops at that [await]. *)

Module Suspension.
Import JSString Worker.
Local Open Scope eff_scope.

Inductive wait : Type :=
| Settled
| Pending.

(** A chunk, and whether the promise of each of the two awaits settles
    should the handler reach it; [pipeline] and [transcriber] of the
    chunk say how a promise that settles does. *)
Record course : Type := {
  of_chunk : chunk;
  instance_promise : wait;
  transcript_promise : wait
}.

(** [self.onmessage]; it returns whether the handler ran to its end. *)
Definition onmessage (k : course) : Eff state bool :=
  Eff.try_catch
    (p <- getInstance (of_chunk k) ;;
     match instance_promise k with
     | Pending => Eff.ret false
     | Settled =>
         await p ;;
         postMessage (Status model_ready) ;;
         match transcript_promise k with
         | Pending => Eff.ret false
         | Settled =>
             transcript <- call_transcriber (of_chunk k) ;;
             match has_text transcript with
             | Some s => postMessage (Text (trim s))
             | None => postMessage (Text [])
             end ;;
             Eff.ret true
         end
     end)
    (fun e => postMessage (Failure transcription_error e) ;; Eff.ret true).

(** One chunk handled from a given [instance]: the instance afterwards
    and the messages posted for this chunk. *)
Definition handle (k : course) (inst : option promise)
  : option promise * list message :=
  let s := Eff.exec (onmessage k) {| instance := inst; posted := [] |} in
  (instance s, posted s).

(** Whether the handler ran to its end. *)
Definition completes (k : course) (inst : option promise) : bool :=
  match fst (onmessage k {| instance := inst; posted := [] |}) with
  | inl finished => finished
  | inr _ => false
  end.

(** The promise the handler awaits first, when [getInstance] hands one
    out: the instance held, or the one the construction returns. *)
Definition awaited_instance (k : course) (inst : option promise)
  : option promise :=
  match inst with
  | Some p => Some p
  | None =>
      match pipeline (of_chunk k) with
      | Returns p => Some p
      | Throws _ => None
      end
  end.

(** The await at which the handler stops for good, from the answers of
    the library alone. *)
Definition stalls (k : course) (inst : option promise) : bool :=
  match awaited_instance k inst with
  | None => false
  | Some p =>
      match instance_promise k with
      | Pending => true
      | Settled =>
          match p, transcript_promise k with
          | Fulfilled, Pending => true
          | _, _ => false
          end
      end
  end.

Definition settled (c : chunk) : course :=
  {| of_chunk := c; instance_promise := Settled;
     transcript_promise := Settled |}.

End Suspension.

(* ================================================================== *)
(** ** The history when the key holds any value *)

(** [chrome.storage.sync] holds what was last stored under the key,
    which need not be an array of entries. On a value that is not an
    array (a string, a number, an object, [null]) the call
    [transcripts.unshift] throws a [TypeError], which the [try] block of
    line 98 catches. The elements of an array are not looked at. *)

Module AnyStorage.
Import JSString Storage.
Local Open Scope Z_scope.

(** An element of a stored array: an entry, or anything else. *)
Inductive item : Type :=
| Entry (e : entry)
| Other.

(** A stored value: an array, or a value that is not one, given with
    the message of the [TypeError] that the call of [unshift] on it
    raises. *)
Inductive value : Type :=
| Array (items : list item)
| NotArray (TypeError : string).

Abbreviation sync := (option value).

(** [getPref('recentTranscripts', defaultValue)] *)
Definition getPref (f : faults) (defaultValue : value) (s : sync) : value :=
  match get_rejects f with
  | Some _ => defaultValue
  | None =>
      match s with
      | Some v => v
      | None => defaultValue
      end
  end.

(** [savePref('recentTranscripts', value)] *)
Definition savePref (f : faults) (v : value) (s : sync) : outcome * sync :=
  match set_rejects f with
  | Some e => (failure e, s)
  | None => (success, Some v)
  end.

(** [saveRecentTranscript(transcript, timestamp)], lines 97 to 109. *)
Definition saveRecentTranscript (f : faults) (transcript : jsstring)
  (timestamp : Z) (s : sync) : outcome * sync :=
  match getPref f (Array []) s with
  | Array transcripts =>
      let transcripts :=
        Entry {| transcript := transcript; timestamp := timestamp |}
        :: transcripts in
      let trimmed := take 10 transcripts in
      let (_, s') := savePref f (Array trimmed) s in
      (success, s')
  | NotArray e => (failure e, s)
  end.

(** A history of [Storage] as a stored value. *)
Definition of_history (s : Storage.sync) : sync :=
  match s with
  | Some items => Some (Array (map Entry items))
  | None => None
  end.

(** The message of the [TypeError] when the read succeeds and finds a
    value that is not an array. *)
Definition reads_no_array (f : faults) (s : sync) : option string :=
  match get_rejects f, s with
  | None, Some (NotArray e) => Some e
  | _, _ => None
  end.

End AnyStorage.

(* ================================================================== *)
(** * Properties *)

(** ** The resampler *)

Section ResamplerFacts.
Import JSNumber Resampler Pipeline.

Lemma store_lengths (h : heap) (r : ref) (i : nat) (v : float) :
  length <$> store h r i v = length <$> h.
Proof.
  unfold store. destruct (h !! r) as [a|] eqn:Hr; [|reflexivity].
  rewrite list_fmap_insert, length_insert.
  apply list_insert_id. rewrite list_lookup_fmap, Hr. reflexivity.
Qed.

Lemma loop_lengths (audioData result : ref) (ratio : float) (count : nat) :
  forall (i : nat) (h : heap),
    length <$> loop audioData result ratio i count h = length <$> h.
Proof.
  induction count as [|count IH]; intros i h; simpl; [reflexivity|].
  rewrite IH. apply store_lengths.
Qed.

(** A number that is not NaN is [===] to itself. *)
Lemma strict_eq_refl (x : float) : is_nan x = false -> strict_eq x x = true.
Proof.
  unfold is_nan, strict_eq. intros Hx. apply negb_false_iff in Hx. exact Hx.
Qed.

(** C6. When the source rate equals the target rate ([===]), the
    resampler returns its argument: the same reference, in an unchanged
    store, hence the same length and the same values. *)
Theorem resampleAudio_identity (h : heap) (audioData : ref)
  (fromSampleRate toSampleRate : float) :
  strict_eq fromSampleRate toSampleRate = true ->
  resampleAudio h audioData fromSampleRate toSampleRate
  = Normal (audioData, h).
Proof.
  intros Heq. unfold resampleAudio. rewrite Heq. reflexivity.
Qed.

Lemma resampleAudio_identity_witness :
  strict_eq 44100 44100 = true
  /\ resampleAudio three_samples 0 44100 44100 = Normal (0, three_samples).
Proof.
  split; [reflexivity|].
  apply (resampleAudio_identity three_samples 0 44100 44100). reflexivity.
Defined.

(** Every rate that is a number is equal to itself, so the identity holds
    for one and the same rate on both sides. *)
Lemma resampleAudio_same_rate (h : heap) (audioData : ref) (rate : float) :
  is_nan rate = false ->
  resampleAudio h audioData rate rate = Normal (audioData, h).
Proof.
  intros Hr. unfold resampleAudio. rewrite (strict_eq_refl rate Hr).
  reflexivity.
Qed.

(** C5. For different rates, when [round(L / r)] is a length an array can
    have, the resampler returns a fresh array of exactly that many
    elements, [L] being the length of the input and [r] the quotient of
    the rates. *)
Theorem resampleAudio_length_law (h : heap) (audioData : ref)
  (data : Float32Array) (sourceRate targetRate : float) (n : nat) :
  h !! audioData = Some data ->
  strict_eq sourceRate targetRate = false ->
  ToIndex (spec_outputLength (length data) sourceRate targetRate) = Some n ->
  exists (result : ref) (h' : heap) (output : Float32Array),
    resampleAudio h audioData sourceRate targetRate = Normal (result, h')
    /\ result = length h
    /\ h' !! result = Some output
    /\ length output = n.
Proof.
  intros Hdata Hne Hn. unfold resampleAudio, spec_outputLength in *.
  rewrite Hne, Hdata, Hn. unfold alloc.
  set (h' := loop _ _ _ _ _ _).
  assert (Hlen : length <$> h' = (length <$> h) ++ [n]).
  { subst h'. rewrite loop_lengths, fmap_app. simpl.
    rewrite length_replicate. reflexivity. }
  assert (Hl : (length <$> h') !! length h = Some n).
  { rewrite Hlen. rewrite lookup_app_r by (rewrite length_fmap; lia).
    rewrite length_fmap, Nat.sub_diag. reflexivity. }
  rewrite list_lookup_fmap in Hl.
  destruct (h' !! length h) as [output|] eqn:Hout; [|discriminate].
  exists (length h), h', output. simpl in Hl.
  repeat split; [exact Hout|congruence].
Qed.

Lemma resampleAudio_length_law_witness :
  strict_eq 44100 16000 = false
  /\ ToIndex (spec_outputLength 441 44100 16000) = Some 160
  /\ exists (result : ref) (h' : heap) (output : Float32Array),
       resampleAudio [replicate 441 0.5%float] 0 44100 16000
       = Normal (result, h')
       /\ result = 1
       /\ h' !! result = Some output
       /\ length output = 160.
Proof.
  split; [reflexivity|]. split; [vm_compute; reflexivity|].
  apply (resampleAudio_length_law [replicate 441 0.5%float] 0
           (replicate 441 0.5%float) 44100 16000 160);
    vm_compute; reflexivity.
Defined.

(** When [round(L / r)] is not such a length (it is negative or
    infinite), the allocation throws and there is no output. *)
Lemma resampleAudio_RangeError (h : heap) (audioData : ref)
  (data : Float32Array) (sourceRate targetRate : float) :
  h !! audioData = Some data ->
  strict_eq sourceRate targetRate = false ->
  ToIndex (spec_outputLength (length data) sourceRate targetRate) = None ->
  resampleAudio h audioData sourceRate targetRate = Throw "RangeError".
Proof.
  intros Hdata Hne Hn. unfold resampleAudio, spec_outputLength in *.
  rewrite Hne, Hdata, Hn. reflexivity.
Qed.

(** The lengths of the test suite: 4410 samples at 44100 Hz and 4800 at
    48000 Hz both give 1600, five samples at 5 Hz give three at 3 Hz, and
    arrays of zero, one and two samples give zero, zero and one. *)
Lemma spec_outputLength_tested :
  spec_outputLength 4410 44100 16000 = of_nat 1600
  /\ spec_outputLength 4800 48000 16000 = of_nat 1600
  /\ spec_outputLength 5 5 3 = of_nat 3
  /\ spec_outputLength 0 48000 16000 = of_nat 0
  /\ spec_outputLength 1 48000 16000 = of_nat 0
  /\ spec_outputLength 2 48000 16000 = of_nat 1.
Proof. vm_compute. repeat split; reflexivity. Qed.

(** C1, on three samples at 32000 Hz. The second output sample sits on
    the last input sample, index 2; the code reads its upper neighbour at
    index 3, which is [undefined], and stores NaN. The copy of the
    function in the test suite falls back to the last sample there. *)
Theorem resampleAudio_reads_past_the_end :
  nearIndex (32000 / 16000) 1 = 2%float
  /\ load three_samples 0 (nearIndex (32000 / 16000) 1 + 1)%float = None
  /\ resampleAudio three_samples 0 32000 16000
     = Normal (1, three_samples ++ [[0.25; nan]%float])
  /\ resampleAudio_test three_samples 0 32000 16000
     = Normal (1, three_samples ++ [[0.25; 0.75]%float]).
Proof. vm_compute. repeat split; reflexivity. Qed.

End ResamplerFacts.

(* ================================================================== *)
(** ** The inference engine and what reaches the orchestrator *)

Section EngineFacts.
Import JSString Runtime Worker Pipeline.

Lemma count_app {A} (p : A -> bool) (l1 l2 : list A) :
  count p (l1 ++ l2) = count p l1 + count p l2.
Proof.
  induction l1 as [|x l1 IH]; simpl; [reflexivity|]. rewrite IH. lia.
Qed.

(** With the model loaded, a chunk posts [model_ready] and then its text
    or its error; the instance stays. *)
Lemma handle_loaded (c : chunk) :
  handle c (Some Fulfilled)
  = (Some Fulfilled,
     Status model_ready ::
     match transcriber c with
     | Fails e => [Failure transcription_error e]
     | Yields t => [Text (trimmed t)]
     end).
Proof.
  unfold handle, Eff.exec, onmessage, getInstance, call_transcriber.
  destruct (transcriber c) as [e|[[s|]|]]; try reflexivity.
  destruct s; reflexivity.
Qed.

(** The first chunk posts [model_loading] before that. *)
Lemma handle_first (c : chunk) :
  pipeline c = Returns Fulfilled ->
  handle c None
  = (Some Fulfilled, Status model_loading :: snd (handle c (Some Fulfilled))).
Proof.
  intros Hp. rewrite handle_loaded.
  unfold handle, Eff.exec, onmessage, getInstance, call_pipeline,
    call_transcriber.
  rewrite Hp.
  destruct (transcriber c) as [e|[[s|]|]]; try reflexivity.
  destruct s; reflexivity.
Qed.

Lemma handle_model_loads (c : chunk) (inst : option promise) :
  model_loads c inst ->
  fst (handle c inst) = Some Fulfilled
  /\ exists prefix,
       snd (handle c inst) = prefix ++ snd (handle c (Some Fulfilled))
       /\ (prefix = [] \/ prefix = [Status model_loading]).
Proof.
  intros [->|[-> Hp]].
  - rewrite handle_loaded. split; [reflexivity|]. exists []. auto.
  - rewrite (handle_first c Hp). split; [reflexivity|].
    exists [Status model_loading]. auto.
Qed.

(** The capture context sends [CAPTURE_STARTED] for a message exactly
    when its status is [model_ready]. *)
Lemma forward_CAPTURE_STARTED (m : Worker.message) :
  count is_CAPTURE_STARTED (Offscreen.forward m)
  = if is_model_ready m then 1 else 0.
Proof.
  unfold Offscreen.forward, is_model_ready.
  destruct (text m) as [[|u t]|], (status m) as [[]|]; reflexivity.
Qed.

Lemma relayed_CAPTURE_STARTED (ps : list Worker.message) :
  count is_CAPTURE_STARTED (relayed ps) = count is_model_ready ps.
Proof.
  induction ps as [|m ps IH]; [reflexivity|].
  change (relayed (m :: ps)) with (Offscreen.forward m ++ relayed ps).
  rewrite count_app, forward_CAPTURE_STARTED, IH. reflexivity.
Qed.

(** It sends [CAPTURE_ERROR] for none. *)
Lemma forward_no_CAPTURE_ERROR (m : Worker.message) :
  count is_CAPTURE_ERROR (Offscreen.forward m) = 0.
Proof.
  unfold Offscreen.forward.
  destruct (text m) as [[|u t]|], (status m) as [[]|]; reflexivity.
Qed.

Lemma relayed_no_CAPTURE_ERROR (ps : list Worker.message) :
  count is_CAPTURE_ERROR (relayed ps) = 0.
Proof.
  induction ps as [|m ps IH]; [reflexivity|].
  change (relayed (m :: ps)) with (Offscreen.forward m ++ relayed ps).
  rewrite count_app, forward_no_CAPTURE_ERROR, IH. reflexivity.
Qed.

(** It sends [TRANSCRIPT_READY] for a text that is not empty, and only
    for that. *)
Lemma forward_TRANSCRIPT_READY (m : Worker.message) (tr : jsstring) :
  In (Runtime.TRANSCRIPT_READY tr) (Offscreen.forward m)
  <-> text m = Some tr /\ tr <> [].
Proof.
  unfold Offscreen.forward.
  destruct (text m) as [[|u t]|], (status m) as [[]|]; simpl;
    intuition (try discriminate; try congruence).
Qed.

(** Once the model is loaded, every chunk posts one [model_ready]. *)
Lemma session_loaded (cs : list chunk) :
  fst (session cs (Some Fulfilled)) = Some Fulfilled
  /\ count is_model_ready (concat (snd (session cs (Some Fulfilled))))
     = length cs.
Proof.
  induction cs as [|c cs [IH1 IH2]]; [split; reflexivity|].
  cbn [session]. rewrite handle_loaded.
  destruct (session cs (Some Fulfilled)) as [inst mss].
  cbn [fst snd concat] in *. split; [exact IH1|].
  rewrite count_app, IH2.
  destruct (transcriber c); reflexivity.
Qed.

(** What the orchestrator does with a message other than
    [CAPTURE_ERROR]: it sends no command to the capture context. *)
Lemma onMessage_no_command (m : Runtime.message) (sw : ServiceWorker.state) :
  is_CAPTURE_ERROR m = false ->
  ServiceWorker.commands (Eff.exec (ServiceWorker.onMessage m) sw)
  = ServiceWorker.commands sw
  /\ ServiceWorker.capturingTabs (Eff.exec (ServiceWorker.onMessage m) sw)
     = ServiceWorker.capturingTabs sw.
Proof.
  intros Hm. unfold ServiceWorker.commands.
  destruct m; try discriminate; simpl;
    rewrite ?flat_map_app; simpl; rewrite ?app_nil_r; auto.
Qed.

Lemma orchestrate_no_command (ms : list Runtime.message)
  (sw : ServiceWorker.state) :
  count is_CAPTURE_ERROR ms = 0 ->
  ServiceWorker.commands (orchestrate ms sw) = ServiceWorker.commands sw
  /\ ServiceWorker.capturingTabs (orchestrate ms sw)
     = ServiceWorker.capturingTabs sw.
Proof.
  revert sw. induction ms as [|m ms IH]; intros sw Hc; [split; reflexivity|].
  simpl in Hc. destruct (is_CAPTURE_ERROR m) eqn:Hm; [discriminate|].
  unfold orchestrate. simpl.
  destruct (onMessage_no_command m sw Hm) as [H1 H2].
  destruct (IH (Eff.exec (ServiceWorker.onMessage m) sw) Hc) as [H3 H4].
  unfold orchestrate in H3, H4. rewrite H3, H4. auto.
Qed.

End EngineFacts.

Section EngineProperties.
Import JSString Runtime Worker Pipeline.

(** C4, as the program has it. In a session whose model loads on the
    first chunk, the worker posts [model_ready] once for every chunk it
    handles, and the capture context sends [CAPTURE_STARTED] once for
    every chunk: as many times as there are chunks. *)
Theorem CAPTURE_STARTED_once_per_chunk (c : chunk) (cs : list chunk) :
  pipeline c = Returns Fulfilled ->
  count is_model_ready (session_posts (c :: cs)) = length (c :: cs)
  /\ count is_CAPTURE_STARTED (session_sent (c :: cs)) = length (c :: cs).
Proof.
  intros Hp.
  assert (H : count is_model_ready (session_posts (c :: cs))
              = length (c :: cs)).
  { unfold session_posts. cbn [session]. rewrite (handle_first c Hp).
    rewrite handle_loaded.
    destruct (session_loaded cs) as [_ Hcs].
    destruct (session cs (Some Fulfilled)) as [inst mss].
    cbn [fst snd concat length] in *.
    rewrite count_app, Hcs. destruct (transcriber c); reflexivity. }
  split; [exact H|].
  unfold session_sent. rewrite relayed_CAPTURE_STARTED. exact H.
Qed.

Lemma CAPTURE_STARTED_once_per_chunk_witness :
  pipeline spoken = Returns Fulfilled
  /\ count is_model_ready (session_posts [spoken; silent; garbled]) = 3
  /\ count is_CAPTURE_STARTED (session_sent [spoken; silent; garbled]) = 3.
Proof.
  split; [reflexivity|].
  apply (CAPTURE_STARTED_once_per_chunk spoken [silent; garbled]).
  reflexivity.
Defined.

(** C4 as stated fails on a session of two chunks: [model_ready] is
    posted twice and [CAPTURE_STARTED] is sent twice, not once. *)
Lemma CAPTURE_STARTED_twice_for_two_chunks :
  count is_model_ready (session_posts [spoken; spoken]) = 2
  /\ count is_CAPTURE_STARTED (session_sent [spoken; spoken]) = 2
  /\ count is_CAPTURE_STARTED (session_sent [spoken; spoken]) <> 1.
Proof. vm_compute. repeat split; discriminate. Qed.

(** C3, as the program has it. When the construction of the pipeline
    throws on the first chunk, the worker posts [model_loading], then
    [model_error] with the message, and the handler of the chunk, to which
    the error propagates, posts [transcription_error]; the model stays
    unloaded. The capture context relays [MODEL_LOADING] alone, so the
    orchestrator gets no [CAPTURE_ERROR], sends no [STOP_CAPTURE] and
    keeps the tab among the capturing ones. *)
Theorem model_error_stays_in_the_worker (c : chunk) (e : string)
  (sw : ServiceWorker.state) :
  pipeline c = Throws e ->
  handle c None
  = (None, [Status model_loading; Failure model_error e;
            Failure transcription_error e])
  /\ relayed (snd (handle c None)) = [MODEL_LOADING]
  /\ ServiceWorker.commands (orchestrate (relayed (snd (handle c None))) sw)
     = ServiceWorker.commands sw
  /\ ServiceWorker.capturingTabs
       (orchestrate (relayed (snd (handle c None))) sw)
     = ServiceWorker.capturingTabs sw.
Proof.
  intros Hp.
  assert (H : handle c None
              = (None, [Status model_loading; Failure model_error e;
                        Failure transcription_error e])).
  { unfold handle, Eff.exec, onmessage, getInstance, call_pipeline.
    rewrite Hp. reflexivity. }
  rewrite H. split; [reflexivity|]. split; [reflexivity|].
  apply orchestrate_no_command. reflexivity.
Qed.

Lemma model_error_stays_in_the_worker_witness :
  pipeline unloadable = Throws "model not found"
  /\ handle unloadable None
     = (None, [Status model_loading; Failure model_error "model not found";
               Failure transcription_error "model not found"])
  /\ relayed (snd (handle unloadable None)) = [MODEL_LOADING]
  /\ ServiceWorker.commands
       (orchestrate (relayed (snd (handle unloadable None))) one_tab)
     = ServiceWorker.commands one_tab
  /\ ServiceWorker.capturingTabs
       (orchestrate (relayed (snd (handle unloadable None))) one_tab)
     = ServiceWorker.capturingTabs one_tab.
Proof.
  split; [reflexivity|].
  apply (model_error_stays_in_the_worker unloadable "model not found"
           one_tab).
  reflexivity.
Defined.

(** C3 as stated fails when the construction throws "model not found":
    the worker does post [model_error], but no [CAPTURE_ERROR] is among
    the messages the orchestrator receives, and it sends no
    [STOP_CAPTURE]: the session is not torn down. *)
Lemma model_error_is_not_a_CAPTURE_ERROR :
  In (Failure model_error "model not found") (snd (handle unloadable None))
  /\ ~ (exists e, In (CAPTURE_ERROR e)
                    (relayed (snd (handle unloadable None))))
  /\ count is_STOP_CAPTURE
       (ServiceWorker.commands
          (orchestrate (relayed (snd (handle unloadable None))) one_tab))
     = 0.
Proof.
  split; [vm_compute; auto|]. split; [|reflexivity].
  intros [e He]. vm_compute in He.
  destruct He as [He|[]]. discriminate.
Qed.

(** C9. When the model is available and the inference of a chunk fails,
    the worker posts one [transcription_error] with the message of the
    failure and keeps the model; nothing the orchestrator receives for the
    chunk is a [CAPTURE_ERROR], so it sends no [STOP_CAPTURE]; and the
    next chunk is handled as if nothing had happened: it posts its text
    when its inference yields one. *)
Theorem transcription_error_is_not_fatal (c next : chunk) (e : string)
  (inst : option promise) (sw : ServiceWorker.state) :
  transcriber c = Fails e ->
  model_loads c inst ->
  fst (handle c inst) = Some Fulfilled
  /\ In (Failure transcription_error e) (snd (handle c inst))
  /\ count is_transcription_error (snd (handle c inst)) = 1
  /\ ServiceWorker.commands (orchestrate (relayed (snd (handle c inst))) sw)
     = ServiceWorker.commands sw
  /\ handle next (fst (handle c inst)) = handle next (Some Fulfilled)
  /\ (forall t, transcriber next = Yields t ->
        snd (handle next (fst (handle c inst)))
        = [Status model_ready; Text (trimmed t)]).
Proof.
  intros Hc Hload.
  destruct (handle_model_loads c inst Hload) as [Hinst [prefix [Hposts Hpre]]].
  rewrite Hinst, Hposts, handle_loaded, Hc. cbn [snd].
  split; [reflexivity|]. split; [apply in_or_app; right; simpl; auto|].
  split; [destruct Hpre as [->| ->]; reflexivity|].
  split; [apply orchestrate_no_command, relayed_no_CAPTURE_ERROR|].
  split; [reflexivity|].
  intros t Ht. rewrite handle_loaded, Ht. reflexivity.
Qed.

Lemma transcription_error_is_not_fatal_witness :
  transcriber garbled = Fails "invalid audio"
  /\ model_loads garbled None
  /\ fst (handle garbled None) = Some Fulfilled
  /\ In (Failure transcription_error "invalid audio")
       (snd (handle garbled None))
  /\ snd (handle spoken (fst (handle garbled None)))
     = [Status model_ready; Text (of_string "hello")].
Proof.
  assert (Hload : model_loads garbled None) by (right; split; reflexivity).
  destruct (transcription_error_is_not_fatal garbled spoken "invalid audio"
              None one_tab eq_refl Hload)
    as [H1 [H2 [_ [_ [_ H6]]]]].
  split; [reflexivity|]. split; [exact Hload|].
  split; [exact H1|]. split; [exact H2|].
  exact (H6 _ eq_refl).
Defined.

(** C10, as the program has it. For a chunk whose inference yields a
    transcript, the model being available, the worker posts
    [model_ready] and then the trimmed text. The capture context sends
    [TRANSCRIPT_READY] with that text when it is not empty and only then:
    the empty string is relayed as nothing. The chunk still reaches the
    orchestrator: its [model_ready] is relayed as [CAPTURE_STARTED]
    (after [MODEL_LOADING], on the chunk that loads the model), and that
    is all a chunk without speech sends. *)
Theorem transcript_sent_iff_nonempty (c : chunk)
  (t : option (option jsstring)) (inst : option promise) :
  transcriber c = Yields t ->
  model_loads c inst ->
  snd (handle c inst)
  = match inst with None => [Status model_loading] | Some _ => [] end
    ++ [Status model_ready; Text (trimmed t)]
  /\ (forall tr,
        In (TRANSCRIPT_READY tr) (relayed (snd (handle c inst)))
        <-> tr = trimmed t /\ trimmed t <> [])
  /\ (trimmed t <> [] ->
        Offscreen.forward (Text (trimmed t))
        = [TRANSCRIPT_READY (trimmed t)])
  /\ (trimmed t = [] -> Offscreen.forward (Text (trimmed t)) = [])
  /\ relayed (snd (handle c inst))
     = match inst with None => [MODEL_LOADING] | Some _ => [] end
       ++ CAPTURE_STARTED
          :: (if nonempty (trimmed t) then [TRANSCRIPT_READY (trimmed t)]
              else []).
Proof.
  intros Ht Hload.
  assert (Hposts :
    snd (handle c inst)
    = match inst with None => [Status model_loading] | Some _ => [] end
      ++ [Status model_ready; Text (trimmed t)]).
  { destruct Hload as [->|[-> Hp]].
    - rewrite handle_loaded, Ht. reflexivity.
    - rewrite (handle_first c Hp), handle_loaded, Ht. reflexivity. }
  assert (Hsent :
    relayed (snd (handle c inst))
    = match inst with None => [MODEL_LOADING] | Some _ => [] end
      ++ CAPTURE_STARTED
         :: (if nonempty (trimmed t) then [TRANSCRIPT_READY (trimmed t)]
             else [])).
  { rewrite Hposts. destruct inst, (trimmed t); reflexivity. }
  split; [exact Hposts|]. split; [|split; [|split; [|exact Hsent]]].
  - intros tr. rewrite Hsent.
    destruct inst, (trimmed t) as [|u s]; cbn;
      intuition (try discriminate; try congruence).
  - intros H. destruct (trimmed t); [congruence|reflexivity].
  - intros ->. reflexivity.
Qed.

Lemma transcript_sent_iff_nonempty_witness :
  transcriber silent = Yields (Some (Some (of_string "  ")))
  /\ model_loads silent (Some Fulfilled)
  /\ snd (handle silent (Some Fulfilled)) = [Status model_ready; Text []]
  /\ relayed (snd (handle silent (Some Fulfilled))) = [CAPTURE_STARTED]
  /\ Offscreen.forward (Text []) = [].
Proof.
  assert (Hload : model_loads silent (Some Fulfilled)) by (left; reflexivity).
  destruct (transcript_sent_iff_nonempty silent
              (Some (Some (of_string "  "))) (Some Fulfilled) eq_refl Hload)
    as [H1 [_ [_ [H4 H5]]]].
  split; [reflexivity|]. split; [exact Hload|].
  split; [exact H1|]. split; [exact H5|]. exact (H4 eq_refl).
Defined.

(** C10 as stated fails on a chunk without speech: the worker posts the
    empty string for it and no [TRANSCRIPT_READY] is sent, but the
    orchestrator does receive a message for the chunk,
    [CAPTURE_STARTED]. *)
Lemma silent_chunk_sends_CAPTURE_STARTED :
  In (Text []) (snd (handle silent (Some Fulfilled)))
  /\ relayed (snd (handle silent (Some Fulfilled))) = [CAPTURE_STARTED]
  /\ relayed (snd (handle silent (Some Fulfilled))) <> [].
Proof.
  split; [vm_compute; auto|]. split; [reflexivity|].
  vm_compute. discriminate.
Qed.

End EngineProperties.

(* ================================================================== *)
(** ** The capture context *)

Section CaptureFacts.
Import Runtime Offscreen Pipeline.

Ltac unfold_capture :=
  unfold Eff.exec, Eff.returns, stopCapture, startCapture,
    originalStopCapture, originalStartCapture, stopKeepAlive, startKeepAlive,
    MediaRecorder_stop, AudioNode_disconnect, AudioContext_close,
    Worker_terminate, window_clearInterval, window_setInterval,
    set_recorder, set_streamSource, set_audioContext, set_whisperWorker,
    set_keepAliveInterval, set_mediaRecorder, set_var, set_world, log,
    Eff.bind, Eff.gets, Eff.modify, Eff.ret, recording_now in *.

(** *** Lists of host objects *)

Lemma insert_last {A} (l : list A) (x y : A) :
  <[length l := y]> (l ++ [x]) = l ++ [y].
Proof.
  induction l as [|a l IH]; simpl; [reflexivity|]. rewrite IH. reflexivity.
Qed.

Lemma lookup_last {A} (l : list A) (x : A) : (l ++ [x]) !! length l = Some x.
Proof. induction l as [|a l IH]; simpl; [reflexivity|]. exact IH. Qed.

Lemma count_snoc {A} (p : A -> bool) (l : list A) (x : A) :
  count p (l ++ [x]) = count p l + (if p x then 1 else 0).
Proof.
  induction l as [|a l IH]; simpl; [lia|]. rewrite IH. lia.
Qed.

Lemma count_zero_lookup {A} (p : A -> bool) (l : list A) (i : nat) (x : A) :
  count p l = 0 -> l !! i = Some x -> p x = false.
Proof.
  revert i. induction l as [|a l IH]; intros i Hc Hl; [discriminate|].
  simpl in Hc. destruct i as [|i]; simpl in Hl.
  - injection Hl as ->. destruct (p x); [discriminate|reflexivity].
  - apply (IH i); [lia|exact Hl].
Qed.

Lemma lookup_recording_insert (rc : list RecordingState) (r : nat) :
  rc !! r = Some recording -> <[r := inactive]> rc !! r = Some inactive.
Proof.
  intros H. apply list_lookup_insert_eq. eapply lookup_lt_Some; eauto.
Qed.

(** *** [stopCapture] *)

(** With nothing held, [stopCapture] does nothing. *)
Lemma stopCapture_released_id (s : state) :
  released s -> stopCapture s = (inl tt, s).
Proof.
  destruct s as [[ac ss mr ww ka] w].
  intros (Hr & Hs & Ha & Hw & Hk). simpl in Hs, Ha, Hw, Hk. subst.
  unfold_capture. cbn in *. rewrite Hr. reflexivity.
Qed.

(** It never throws, and nothing is held after it. *)
Lemma stopCapture_releases (s : state) :
  released (Eff.exec stopCapture s) /\ Eff.returns stopCapture s = true.
Proof.
  destruct s as [[ac ss mr ww ka] [st cx so wk rc tm cl]].
  unfold released. unfold_capture. cbn.
  destruct mr as [r|]; [destruct (rc !! r) as [[]|] eqn:Hr|];
    destruct ss, ac, ww, ka; cbn;
    try rewrite (lookup_recording_insert rc r Hr); try rewrite Hr;
    repeat split; reflexivity.
Qed.

Lemma stopCapture_calls (s : state) :
  calls (world (Eff.exec stopCapture s))
  = calls (world s) ++ expected_teardown s.
Proof.
  destruct s as [[ac ss mr ww ka] [st cx so wk rc tm cl]].
  unfold expected_teardown. unfold_capture. cbn.
  destruct mr as [r|]; [destruct (rc !! r) as [[]|] eqn:Hr|];
    destruct ss, ac, ww, ka; cbn; rewrite <- ?app_assoc, ?app_nil_r;
    reflexivity.
Qed.

Lemma expected_teardown_all (s : state) :
  List.filter is_teardown (expected_teardown s) = expected_teardown s.
Proof.
  unfold expected_teardown.
  destruct (recording_now s), (streamSource (var s)), (audioContext (var s)),
    (whisperWorker (var s)), (keepAliveInterval (var s)); reflexivity.
Qed.

Lemma teardown_calls_stopCapture (s : state) :
  teardown_calls stopCapture s = expected_teardown s.
Proof.
  unfold teardown_calls. rewrite stopCapture_calls.
  rewrite drop_app_length. apply expected_teardown_all.
Qed.

(** C7. From every state, [stopCapture] completes without an error and
    makes exactly one teardown call for each resource that is held: the
    recorder when it is recording, the source node, the audio context,
    the worker and the keep-alive timer when the variable holds one.
    Called again, it makes no call and changes nothing; called when
    nothing was ever started, it changes nothing. *)
Theorem stopCapture_idempotent (s : state) :
  Eff.returns stopCapture s = true
  /\ teardown_calls stopCapture s = expected_teardown s
  /\ Eff.exec stopCapture (Eff.exec stopCapture s) = Eff.exec stopCapture s
  /\ teardown_calls stopCapture (Eff.exec stopCapture s) = []
  /\ Eff.exec stopCapture initial = initial.
Proof.
  destruct (stopCapture_releases s) as [Hrel Hret].
  split; [exact Hret|]. split; [apply teardown_calls_stopCapture|].
  pose proof (stopCapture_released_id _ Hrel) as Hid.
  split; [unfold Eff.exec at 1; rewrite Hid; reflexivity|].
  split; [|reflexivity].
  rewrite teardown_calls_stopCapture.
  destruct Hrel as (H1 & H2 & H3 & H4 & H5). unfold expected_teardown.
  rewrite H1, H2, H3, H4, H5. reflexivity.
Qed.

(** The same holds for [stopCapture] as declared, before the keep-alive
    is added to it: a second call makes no teardown call. *)
Lemma originalStopCapture_twice (s : state) :
  teardown_calls originalStopCapture (Eff.exec originalStopCapture s) = [].
Proof.
  destruct s as [[ac ss mr ww ka] [st cx so wk rc tm cl]].
  unfold teardown_calls. unfold_capture. cbn.
  destruct mr as [r|]; [destruct (rc !! r) as [[]|] eqn:Hr|];
    destruct ss, ac, ww; cbn;
    try rewrite (lookup_recording_insert rc r Hr); try rewrite Hr;
    cbn; rewrite drop_all; reflexivity.
Qed.

(** *** [startCapture] *)

(** While the recorder records, [startCapture] as declared returns at
    once: no call, no change. *)
Lemma originalStartCapture_recording (o : oracle) (streamId : string)
  (s : state) (r : nat) :
  recording_now s = Some r -> originalStartCapture o streamId s = (inl tt, s).
Proof.
  intros Hr. unfold originalStartCapture, Eff.bind, Eff.gets.
  rewrite Hr. reflexivity.
Qed.

(** While the timer runs, [startKeepAlive] returns at once. *)
Lemma startKeepAlive_running (s : state) (t : nat) :
  keepAliveInterval (var s) = Some t -> startKeepAlive s = (inl tt, s).
Proof.
  intros Ht. unfold startKeepAlive, Eff.bind, Eff.gets.
  rewrite Ht. reflexivity.
Qed.

Lemma startCapture_listening (o : oracle) (streamId : string)
  (s : state) (r t : nat) :
  recording_now s = Some r ->
  keepAliveInterval (var s) = Some t ->
  startCapture o streamId s = (inl tt, s).
Proof.
  intros Hr Ht. unfold startCapture, Eff.bind.
  rewrite (originalStartCapture_recording o streamId s r Hr).
  apply (startKeepAlive_running s t Ht).
Qed.

Lemma quiescent_not_recording (s : state) :
  quiescent s -> recording_now s = None.
Proof.
  intros (Hrec & _). unfold recording_now, active_recorders in *.
  destruct (mediaRecorder (var s)) as [r|]; [|reflexivity].
  destruct (recorders (world s) !! r) as [st|] eqn:Hr; [|reflexivity].
  pose proof (count_zero_lookup _ _ _ _ Hrec Hr) as Hst.
  destruct st; try reflexivity. discriminate.
Qed.

(** The state after a start in which every host call succeeds. *)
Lemma startCapture_succeeds (s0 : state) (streamId : string) :
  recording_now s0 = None ->
  whisperWorker (var s0) = None ->
  keepAliveInterval (var s0) = None ->
  Eff.exec (startCapture all_succeed streamId) s0
  = {| var := {| audioContext := Some (length (contexts (world s0)));
                 streamSource := Some (length (sources (world s0)));
                 mediaRecorder := Some (length (recorders (world s0)));
                 whisperWorker := Some (length (workers (world s0)));
                 keepAliveInterval := Some (length (timers (world s0))) |};
       world :=
         {| streams := S (streams (world s0));
            contexts := contexts (world s0) ++ [true];
            sources := sources (world s0) ++ [true];
            workers := workers (world s0) ++ [true];
            recorders := recorders (world s0) ++ [recording];
            timers := timers (world s0) ++ [true];
            calls :=
              calls (world s0)
              ++ [Acquire streamId (streams (world s0));
                  NewContext (length (contexts (world s0)));
                  NewSource (length (contexts (world s0)))
                    (streams (world s0)) (length (sources (world s0)));
                  Connect (length (sources (world s0)));
                  NewWorker (length (workers (world s0)));
                  NewRecorder (streams (world s0))
                    (length (recorders (world s0)));
                  Start (length (recorders (world s0))) 2000;
                  SetInterval (length (timers (world s0))) 20000] |} |}.
Proof.
  intros Hnr Hww Hka.
  destruct s0 as [[ac ss mr ww ka] [st cx so wk rc tm cl]].
  simpl in Hww, Hka. subst ww ka.
  unfold Eff.exec, startCapture, originalStartCapture, Eff.bind, Eff.gets.
  rewrite Hnr. cbn. rewrite !insert_last, <- !app_assoc. reflexivity.
Qed.

(** C8. After a start that succeeded from a quiescent capture context,
    one recorder records, one worker lives and one keep-alive timer runs;
    a second [startCapture], whatever the host would answer, returns
    without a call and leaves the state as it is, so these stay one
    each. *)
Theorem double_start_is_noop (s0 : state) (streamId streamId' : string)
  (o : oracle) :
  quiescent s0 ->
  let s1 := Eff.exec (startCapture all_succeed streamId) s0 in
  startCapture o streamId' s1 = (inl tt, s1)
  /\ active_recorders s1 = 1
  /\ live_workers s1 = 1
  /\ active_timers s1 = 1.
Proof.
  intros Hq s1.
  pose proof (quiescent_not_recording s0 Hq) as Hnr.
  destruct Hq as (Hrec & Hwk & Htm & Hww & Hka).
  subst s1. rewrite (startCapture_succeeds s0 streamId Hnr Hww Hka).
  split.
  - apply (startCapture_listening o streamId' _
             (length (recorders (world s0))) (length (timers (world s0)))).
    + unfold recording_now. cbn. rewrite lookup_last. reflexivity.
    + reflexivity.
  - unfold active_recorders, live_workers, active_timers in *. cbn.
    rewrite !count_snoc, Hrec, Hwk, Htm. auto.
Qed.

Lemma double_start_is_noop_witness :
  quiescent initial
  /\ Eff.exec (startCapture (denied "busy") "stream-2")
       (Eff.exec (startCapture all_succeed "stream-1") initial)
     = Eff.exec (startCapture all_succeed "stream-1") initial
  /\ active_recorders
       (Eff.exec (startCapture all_succeed "stream-1") initial) = 1.
Proof.
  assert (Hq : quiescent initial) by (repeat split; reflexivity).
  destruct (double_start_is_noop initial "stream-1" "stream-2"
              (denied "busy") Hq) as [H1 [H2 _]].
  split; [exact Hq|]. split; [|exact H2].
  unfold Eff.exec at 1. rewrite H1. reflexivity.
Defined.

(** *** The messages of the worker *)

(** The handler of the worker's messages only sends: it releases
    nothing and leaves the variables and the host objects as they are. *)
Lemma send_all_sends (ms : list message) (s : state) :
  send_all ms s
  = (inl tt,
     {| var := var s;
        world := {| streams := streams (world s);
                    contexts := contexts (world s);
                    sources := sources (world s);
                    workers := workers (world s);
                    recorders := recorders (world s);
                    timers := timers (world s);
                    calls := calls (world s) ++ map SendMessage ms |} |}).
Proof.
  revert s. induction ms as [|m ms IH]; intros [v [st cx so wk rc tm cl]].
  - cbn. rewrite app_nil_r. reflexivity.
  - cbn [send_all]. unfold Eff.bind, runtime_sendMessage, log, set_world,
      Eff.modify. rewrite IH. cbn. rewrite <- app_assoc. reflexivity.
Qed.

Lemma whisperWorker_onmessage_sends (m : Worker.message) (s : state) :
  var (Eff.exec (whisperWorker_onmessage m) s) = var s
  /\ sent (Eff.exec (whisperWorker_onmessage m) s) = sent s ++ forward m
  /\ teardown_calls (whisperWorker_onmessage m) s = [].
Proof.
  unfold whisperWorker_onmessage, teardown_calls, Eff.exec, sent.
  rewrite send_all_sends. cbn.
  split; [reflexivity|]. split.
  - rewrite flat_map_app. f_equal.
    induction (forward m) as [|x l IH]; [reflexivity|]. cbn. rewrite IH.
    reflexivity.
  - rewrite drop_app_length.
    induction (forward m) as [|x l IH]; [reflexivity|]. exact IH.
Qed.
(** *** The keep-alive timer *)

(** C2, on a start whose [getUserMedia] is rejected. The capture context
    sends [CAPTURE_ERROR] and creates no recorder, and yet the keep-alive
    timer is started: it runs with no capture, and its next tick sends a
    [KEEP_ALIVE]. *)
Theorem keepAlive_runs_after_failed_start (e streamId : string) :
  let s := Eff.exec (onMessage (denied e) (START_CAPTURE "offscreen" streamId))
             initial in
  sent s = [CAPTURE_ERROR e]
  /\ recorders (world s) = []
  /\ mediaRecorder (var s) = None
  /\ keepAliveInterval (var s) = Some 0
  /\ active_timers s = 1
  /\ sent (Eff.exec (keepAlive_tick 0) s) = [CAPTURE_ERROR e; KEEP_ALIVE].
Proof. repeat split; reflexivity. Qed.

(** [startCapture] as declared never throws, whatever the host answers,
    and never touches the timer. *)
Lemma originalStartCapture_keeps_timer (o : oracle) (streamId : string)
  (s : state) :
  Eff.returns (originalStartCapture o streamId) s = true
  /\ keepAliveInterval (var (Eff.exec (originalStartCapture o streamId) s))
     = keepAliveInterval (var s)
  /\ timers (world (Eff.exec (originalStartCapture o streamId) s))
     = timers (world s).
Proof.
  destruct s as [[ac ss mr ww ka] [st cx so wk rc tm cl]].
  unfold Eff.returns, Eff.exec, originalStartCapture, Eff.bind, Eff.gets,
    Eff.try_catch, mediaDevices_getUserMedia, AudioContext_new,
    AudioContext_createMediaStreamSource, AudioNode_connect, Worker_new,
    MediaRecorder_new, MediaRecorder_start, guard, Eff.bind.
  destruct (recording_now _); [repeat split; reflexivity|].
  destruct (o getUserMedia); [repeat split; reflexivity|].
  destruct (o new_AudioContext); [repeat split; reflexivity|].
  destruct (o createMediaStreamSource); [repeat split; reflexivity|].
  destruct (o connect); [repeat split; reflexivity|].
  destruct ww; cbn.
  - destruct (o new_MediaRecorder); [repeat split; reflexivity|].
    destruct (o start); repeat split; reflexivity.
  - destruct (o new_Worker); [repeat split; reflexivity|].
    destruct (o new_MediaRecorder); [repeat split; reflexivity|].
    destruct (o start); repeat split; reflexivity.
Qed.

(** So the reassigned [startCapture] starts the timer whenever none is
    held, whether the recorder was started or not. *)
Lemma startCapture_always_starts_keepAlive (o : oracle) (streamId : string)
  (s : state) :
  keepAliveInterval (var s) = None ->
  keepAliveInterval (var (Eff.exec (startCapture o streamId) s))
  = Some (length (timers (world s)))
  /\ active_timers (Eff.exec (startCapture o streamId) s)
     = active_timers s + 1.
Proof.
  intros Hk.
  destruct (originalStartCapture_keeps_timer o streamId s) as (Hr & Hk' & Ht).
  unfold Eff.exec, Eff.returns, startCapture, Eff.bind in *.
  destruct (originalStartCapture o streamId s) as [[[]|e] s']; [|discriminate].
  cbn in Hk', Ht. rewrite Hk in Hk'.
  destruct s' as [[ac ss mr ww ka] [st cx so wk rc tm cl]].
  cbn in Hk', Ht. subst ka tm.
  unfold active_timers. cbn. rewrite count_snoc. auto.
Qed.
(** What does hold of the timer: [stopCapture] clears the one the
    variable holds, after which its tick sends nothing. *)
Lemma stopCapture_silences_keepAlive (s : state) (t : nat) :
  keepAliveInterval (var s) = Some t ->
  keepAliveInterval (var (Eff.exec stopCapture s)) = None
  /\ sent (Eff.exec (keepAlive_tick t) (Eff.exec stopCapture s))
     = sent (Eff.exec stopCapture s).
Proof.
  intros Ht. destruct (stopCapture_releases s) as [(_ & _ & _ & _ & Hk) _].
  split; [exact Hk|].
  assert (Hoff : timers (world (Eff.exec stopCapture s)) !! t <> Some true).
  { destruct s as [[ac ss mr ww ka] [st cx so wk rc tm cl]].
    simpl in Ht. subst ka. unfold_capture. cbn.
    assert (Hins : <[t := false]> tm !! t <> Some true).
    { intros Habs. pose proof (lookup_lt_Some _ _ _ Habs) as Hlt.
      rewrite length_insert in Hlt.
      rewrite list_lookup_insert_eq in Habs by exact Hlt. discriminate. }
    destruct mr as [r|]; [destruct (rc !! r) as [[]|] eqn:Hr|];
      destruct ss, ac, ww; cbn; exact Hins. }
  unfold keepAlive_tick, Eff.exec at 1, Eff.bind, Eff.gets.
  destruct (timers (world (Eff.exec stopCapture s)) !! t) as [[]|];
    [congruence|reflexivity|reflexivity].
Qed.

(** Every stop of the orchestrator (a click on a listening tab, a
    [CAPTURE_ERROR], the removal of a capturing tab) sends
    [STOP_CAPTURE] to the capture context, whose listener then runs
    [stopCapture]. *)
Lemma clear_badges_no_command (tabs : list nat) (sw : ServiceWorker.state) :
  ServiceWorker.commands (Eff.exec (ServiceWorker.clear_badges tabs) sw)
  = ServiceWorker.commands sw.
Proof.
  revert sw. induction tabs as [|tab tabs IH]; intros sw; [reflexivity|].
  unfold Eff.exec in *. cbn. unfold Eff.bind, ServiceWorker.act, Eff.modify.
  rewrite IH. unfold ServiceWorker.commands. cbn.
  rewrite flat_map_app. cbn. apply app_nil_r.
Qed.

Lemma ServiceWorker_stopCapture_command (tabId : option nat)
  (sw : ServiceWorker.state) :
  ServiceWorker.commands (Eff.exec (ServiceWorker.stopCapture tabId) sw)
  = ServiceWorker.commands sw ++ [STOP_CAPTURE "offscreen"].
Proof.
  unfold ServiceWorker.stopCapture.
  destruct tabId as [[|tab]|].
  - unfold Eff.exec, Eff.bind, ServiceWorker.act, Eff.modify, Eff.gets,
      ServiceWorker.set_capturingTabs. cbn.
    pose proof (clear_badges_no_command (ServiceWorker.capturingTabs sw)
      {| ServiceWorker.capturingTabs := ServiceWorker.capturingTabs sw;
         ServiceWorker.actions :=
           ServiceWorker.actions sw
           ++ [ServiceWorker.sendMessage (STOP_CAPTURE "offscreen")] |})
      as Hc.
    unfold Eff.exec in Hc.
    destruct (ServiceWorker.clear_badges _ _) as [[[]|e] sw']; cbn in *;
      unfold ServiceWorker.commands in *; cbn in *;
      rewrite Hc, flat_map_app; reflexivity.
  - unfold Eff.exec, Eff.bind, ServiceWorker.act, Eff.modify,
      ServiceWorker.set_capturingTabs, ServiceWorker.commands. cbn.
    rewrite !flat_map_app. cbn. rewrite app_nil_r. reflexivity.
  - unfold Eff.exec, Eff.bind, ServiceWorker.act, Eff.modify, Eff.gets,
      ServiceWorker.set_capturingTabs. cbn.
    pose proof (clear_badges_no_command (ServiceWorker.capturingTabs sw)
      {| ServiceWorker.capturingTabs := ServiceWorker.capturingTabs sw;
         ServiceWorker.actions :=
           ServiceWorker.actions sw
           ++ [ServiceWorker.sendMessage (STOP_CAPTURE "offscreen")] |})
      as Hc.
    unfold Eff.exec in Hc.
    destruct (ServiceWorker.clear_badges _ _) as [[[]|e] sw']; cbn in *;
      unfold ServiceWorker.commands in *; cbn in *;
      rewrite Hc, flat_map_app; reflexivity.
Qed.

Lemma stop_paths_send_STOP_CAPTURE (sw : ServiceWorker.state) (e : string)
  (tab : nat) :
  ServiceWorker.commands
    (Eff.exec (ServiceWorker.onMessage (CAPTURE_ERROR e)) sw)
  = ServiceWorker.commands sw ++ [STOP_CAPTURE "offscreen"]
  /\ (existsb (Nat.eqb tab) (ServiceWorker.capturingTabs sw) = true ->
      ServiceWorker.commands (Eff.exec (ServiceWorker.onRemoved tab) sw)
      = ServiceWorker.commands sw ++ [STOP_CAPTURE "offscreen"]).
Proof.
  split.
  - pose proof (ServiceWorker_stopCapture_command None
      {| ServiceWorker.capturingTabs := ServiceWorker.capturingTabs sw;
         ServiceWorker.actions :=
           (ServiceWorker.actions sw
            ++ [ServiceWorker.setBadgeText "ERR" None])
           ++ [ServiceWorker.setBadgeBackgroundColor "#ef4444"] |}) as Hc.
    change (Eff.exec (ServiceWorker.onMessage (CAPTURE_ERROR e)) sw)
      with (Eff.exec (ServiceWorker.stopCapture None)
              {| ServiceWorker.capturingTabs := ServiceWorker.capturingTabs sw;
                 ServiceWorker.actions :=
                   (ServiceWorker.actions sw
                    ++ [ServiceWorker.setBadgeText "ERR" None])
                   ++ [ServiceWorker.setBadgeBackgroundColor "#ef4444"] |}).
    rewrite Hc. unfold ServiceWorker.commands. cbn.
    rewrite !flat_map_app. cbn. rewrite !app_nil_r. reflexivity.
  - intros Htab. unfold ServiceWorker.onRemoved, Eff.exec, Eff.bind, Eff.gets.
    rewrite Htab. apply ServiceWorker_stopCapture_command.
Qed.

Lemma listener_STOP_CAPTURE (o : oracle) :
  onMessage o (STOP_CAPTURE "offscreen") = stopCapture.
Proof. reflexivity. Qed.

End CaptureFacts.

(* ================================================================== *)
(** ** The resampler, sample by sample *)

Section ResamplerSamples.
Import JSNumber Resampler Pipeline Interpolation.

Lemma store_other (h : heap) (r r' : ref) (i : nat) (v : float) :
  r' <> r -> store h r i v !! r' = h !! r'.
Proof.
  intros Hne. unfold store. destruct (h !! r); [|reflexivity].
  apply list_lookup_insert_ne. congruence.
Qed.

Lemma store_same (h : heap) (r : ref) (i : nat) (v : float) (a : list float) :
  h !! r = Some a -> store h r i v !! r = Some (<[i := fround v]> a).
Proof.
  intros Hr. unfold store. rewrite Hr.
  apply list_lookup_insert_eq. eapply lookup_lt_Some; eauto.
Qed.

Lemma loop_other (audioData result r : ref) (ratio : float) (count : nat) :
  r <> result ->
  forall (i : nat) (h : heap),
    loop audioData result ratio i count h !! r = h !! r.
Proof.
  intros Hne. induction count as [|count IH]; intros i h; simpl;
    [reflexivity|].
  rewrite IH. unfold body. apply store_other. exact Hne.
Qed.

Lemma loop_samples (audioData result : ref) (ratio : float)
  (data : list float) (count : nat) :
  audioData <> result ->
  forall (i : nat) (h : heap) (out0 : list float),
    h !! audioData = Some data ->
    h !! result = Some out0 ->
    exists out,
      loop audioData result ratio i count h !! result = Some out
      /\ length out = length out0
      /\ forall j,
           out !! j
           = if decide (i <= j < i + count /\ j < length out0)
             then Some (sample data ratio j)
             else out0 !! j.
Proof.
  intros Hne. induction count as [|count IH]; intros i h out0 Hd Ho.
  - simpl. exists out0. split; [exact Ho|]. split; [reflexivity|].
    intros j. destruct (decide _) as [[? ?]|]; [lia|reflexivity].
  - simpl.
    assert (Hb : body h audioData result ratio i !! result
                 = Some (<[i := sample data ratio i]> out0)).
    { unfold body, load. rewrite Hd. apply store_same. exact Ho. }
    assert (Hd' : body h audioData result ratio i !! audioData = Some data).
    { unfold body. rewrite store_other by exact Hne. exact Hd. }
    destruct (IH (S i) _ _ Hd' Hb) as (out & Hout & Hlen & Hj).
    exists out. split; [exact Hout|].
    rewrite length_insert in Hlen. split; [exact Hlen|].
    intros j. rewrite Hj. rewrite length_insert.
    destruct (decide (S i <= j < S i + count /\ j < length out0)) as [H1|H1];
      destruct (decide (i <= j < i + S count /\ j < length out0)) as [H2|H2].
    + reflexivity.
    + exfalso. lia.
    + assert (j = i) as -> by lia.
      rewrite list_lookup_insert_eq by lia. reflexivity.
    + destruct (decide (i = j)) as [->|Hij].
      * rewrite list_insert_ge by lia. reflexivity.
      * apply list_lookup_insert_ne. exact Hij.
Qed.

Lemma nan_sub (x : float) : (nan - x)%float = nan.
Proof. apply Prim2SF_inj. rewrite sub_spec. reflexivity. Qed.

Lemma nan_mul (x : float) : (nan * x)%float = nan.
Proof. apply Prim2SF_inj. rewrite mul_spec. reflexivity. Qed.

Lemma add_nan (x : float) : (x + nan)%float = nan.
Proof.
  apply Prim2SF_inj. rewrite add_spec.
  change (Prim2SF nan) with S754_nan. destruct (Prim2SF x); reflexivity.
Qed.

Lemma interpolate_undefined (nearValue : option float) (fraction : float) :
  interpolate nearValue None fraction = nan.
Proof.
  unfold interpolate. cbn [ToNumber]. rewrite nan_sub, nan_mul, add_nan.
  reflexivity.
Qed.

(** X1. [resampleAudio] writes to the array it allocates and to nothing
    else: every object that was in the store, the input among them, is
    the same afterwards. *)
Theorem resampleAudio_keeps_the_store (h : heap) (audioData : ref)
  (sourceRate targetRate : float) (result : ref) (h' : heap) :
  resampleAudio h audioData sourceRate targetRate = Normal (result, h') ->
  forall r, r < length h -> h' !! r = h !! r.
Proof.
  unfold resampleAudio. destruct (strict_eq sourceRate targetRate).
  - intros [= <- <-] r _. reflexivity.
  - destruct (h !! audioData) as [data|]; [|discriminate].
    destruct (ToIndex _) as [n|]; [|discriminate].
    unfold alloc. intros [= <- <-] r Hr.
    rewrite loop_other by lia. apply lookup_app_l. exact Hr.
Qed.

Lemma resampleAudio_keeps_the_store_witness :
  resampleAudio three_samples 0 32000 16000
  = Normal (1, three_samples ++ [[0.25; nan]%float])
  /\ (three_samples ++ [[0.25; nan]%float]) !! 0 = three_samples !! 0.
Proof.
  assert (H : resampleAudio three_samples 0 32000 16000
              = Normal (1, three_samples ++ [[0.25; nan]%float]))
    by (vm_compute; reflexivity).
  split; [exact H|].
  apply (resampleAudio_keeps_the_store three_samples 0 32000 16000 1 _ H 0).
  simpl. lia.
Defined.

(** The output of a resampling between different rates. *)
Lemma resampleAudio_output (h : heap) (audioData : ref)
  (data : Float32Array) (sourceRate targetRate : float) (n : nat) :
  h !! audioData = Some data ->
  strict_eq sourceRate targetRate = false ->
  ToIndex (spec_outputLength (length data) sourceRate targetRate) = Some n ->
  exists (h' : heap) (output : Float32Array),
    resampleAudio h audioData sourceRate targetRate = Normal (length h, h')
    /\ h' !! length h = Some output
    /\ length output = n
    /\ (forall i, i < n ->
          output !! i = Some (sample data (sourceRate / targetRate) i))
    /\ (forall r, r < length h -> h' !! r = h !! r).
Proof.
  intros Hdata Hne Hn. unfold resampleAudio, spec_outputLength in *.
  rewrite Hne, Hdata, Hn. unfold alloc.
  pose proof (lookup_lt_Some _ _ _ Hdata) as Hlt.
  destruct (loop_samples audioData (length h) (sourceRate / targetRate)
              data n ltac:(lia) 0 (h ++ [replicate n zero]) (replicate n zero))
    as (out & Hout & Hlen & Hj).
  { rewrite lookup_app_l by exact Hlt. exact Hdata. }
  { rewrite lookup_app_r by lia. rewrite Nat.sub_diag. reflexivity. }
  rewrite length_replicate in Hlen.
  eexists _, out. split; [reflexivity|].
  split; [exact Hout|]. split; [exact Hlen|]. split.
  - intros i Hi. rewrite Hj, length_replicate.
    destruct (decide _) as [_|Hno]; [reflexivity|exfalso; lia].
  - intros r Hr. rewrite loop_other by lia. apply lookup_app_l. exact Hr.
Qed.

(** X2. Between different rates, output sample [i] is the binary32
    rounding of [v0 + (v1 - v0) * frac], where [v0] is the input at
    [floor(i * ratio)], [v1] the input at the next index and [frac] the
    fractional part of [i * ratio], for every index of the output; a
    neighbour outside the input counts as [undefined], not as [v0]. *)
Theorem resampleAudio_samples (h : heap) (audioData : ref)
  (data : Float32Array) (sourceRate targetRate : float) (n : nat) :
  h !! audioData = Some data ->
  strict_eq sourceRate targetRate = false ->
  ToIndex (spec_outputLength (length data) sourceRate targetRate) = Some n ->
  exists (result : ref) (h' : heap) (output : Float32Array),
    resampleAudio h audioData sourceRate targetRate = Normal (result, h')
    /\ h' !! result = Some output
    /\ forall i, i < n ->
         output !! i = Some (sample data (sourceRate / targetRate) i).
Proof.
  intros Hdata Hne Hn.
  destruct (resampleAudio_output h audioData data sourceRate targetRate n
              Hdata Hne Hn) as (h' & output & Hres & Hout & _ & Hs & _).
  exists (length h), h', output. auto.
Qed.

Lemma resampleAudio_samples_witness :
  three_samples !! 0 = Some [0.25; 0.5; 0.75]%float
  /\ exists (result : ref) (h' : heap) (output : Float32Array),
       resampleAudio three_samples 0 48000 16000 = Normal (result, h')
       /\ h' !! result = Some output
       /\ forall i, i < 1 ->
            output !! i
            = Some (sample [0.25; 0.5; 0.75]%float (48000 / 16000) i).
Proof.
  split; [reflexivity|].
  apply (resampleAudio_samples three_samples 0 [0.25; 0.5; 0.75]%float
           48000 16000 1); vm_compute; reflexivity.
Defined.

(** X3. Whenever the index after [floor(i * ratio)] is not an index of
    the input, output sample [i] is NaN, whatever the samples are. *)
Theorem resampleAudio_NaN_past_the_end (h : heap) (audioData : ref)
  (data : Float32Array) (sourceRate targetRate : float) (n i : nat) :
  h !! audioData = Some data ->
  strict_eq sourceRate targetRate = false ->
  ToIndex (spec_outputLength (length data) sourceRate targetRate) = Some n ->
  i < n ->
  get data (nearIndex (sourceRate / targetRate) i + 1)%float = None ->
  exists (result : ref) (h' : heap) (output : Float32Array),
    resampleAudio h audioData sourceRate targetRate = Normal (result, h')
    /\ h' !! result = Some output
    /\ output !! i = Some nan.
Proof.
  intros Hdata Hne Hn Hi Hfar.
  destruct (resampleAudio_output h audioData data sourceRate targetRate n
              Hdata Hne Hn) as (h' & output & Hres & Hout & _ & Hs & _).
  exists (length h), h', output. split; [exact Hres|]. split; [exact Hout|].
  rewrite (Hs i Hi). unfold sample. rewrite Hfar, interpolate_undefined.
  reflexivity.
Qed.

Lemma resampleAudio_NaN_past_the_end_witness :
  get [0.25; 0.5; 0.75]%float (nearIndex (32000 / 16000) 1 + 1)%float = None
  /\ exists (result : ref) (h' : heap) (output : Float32Array),
       resampleAudio three_samples 0 32000 16000 = Normal (result, h')
       /\ h' !! result = Some output
       /\ output !! 1 = Some nan.
Proof.
  split; [vm_compute; reflexivity|].
  apply (resampleAudio_NaN_past_the_end three_samples 0
           [0.25; 0.5; 0.75]%float 32000 16000 2 1);
    vm_compute; reflexivity.
Defined.

End ResamplerSamples.

(* ================================================================== *)
(** ** The capture context over its events *)

Section CaptureEvents.
Import Runtime Offscreen Pipeline Session.

Ltac unfold_start :=
  unfold Eff.returns, Eff.exec, startCapture, originalStartCapture,
    startKeepAlive, Eff.bind, Eff.gets, Eff.try_catch,
    mediaDevices_getUserMedia, AudioContext_new,
    AudioContext_createMediaStreamSource, AudioNode_connect, Worker_new,
    MediaRecorder_new, MediaRecorder_start, window_setInterval, guard in *.

Ltac finish_start Hnr :=
  cbn; rewrite ?insert_last, ?flat_map_app; cbn; rewrite ?app_nil_r;
  unfold recording_now in *; cbn in *; rewrite ?lookup_last, ?Hnr;
  repeat split; try discriminate; try (intros [? ?]; discriminate); eauto.

(** What [startCapture] as declared reports when the recorder is not
    recording. *)
Lemma originalStartCapture_outcome (o : oracle) (streamId : string)
  (s : state) :
  recording_now s = None ->
  let s' := Eff.exec (originalStartCapture o streamId) s in
  Eff.returns (originalStartCapture o streamId) s = true
  /\ sent s'
     = sent s
       ++ match first_failure o
                  (calls_of_start
                     (bool_decide (is_Some (whisperWorker (var s)))))
          with
          | Some e => [CAPTURE_ERROR e]
          | None => []
          end
  /\ (is_Some (recording_now s')
      <-> first_failure o
            (calls_of_start (bool_decide (is_Some (whisperWorker (var s)))))
          = None).
Proof.
  intros Hnr s'. subst s'.
  destruct s as [[ac ss mr ww ka] [st cx so wk rc tm cl]].
  unfold_start. rewrite Hnr. unfold sent, first_failure, calls_of_start.
  cbn.
  destruct (o getUserMedia); [finish_start Hnr|].
  destruct (o new_AudioContext); [finish_start Hnr|].
  destruct (o createMediaStreamSource); [finish_start Hnr|].
  destruct (o connect); [finish_start Hnr|].
  destruct ww as [w|]; cbn.
  - destruct (o new_MediaRecorder); [finish_start Hnr|].
    destruct (o start); finish_start Hnr.
  - destruct (o new_Worker); [finish_start Hnr|].
    destruct (o new_MediaRecorder); [finish_start Hnr|].
    destruct (o start); finish_start Hnr.
Qed.

(** [startKeepAlive] sends nothing and leaves the recorder alone. *)
Lemma startKeepAlive_quiet (s : state) :
  sent (Eff.exec startKeepAlive s) = sent s
  /\ recording_now (Eff.exec startKeepAlive s) = recording_now s
  /\ Eff.returns startKeepAlive s = true.
Proof.
  destruct s as [[ac ss mr ww ka] [st cx so wk rc tm cl]].
  unfold Eff.exec, Eff.returns, startKeepAlive, window_setInterval,
    Eff.bind, Eff.gets, sent, recording_now.
  destruct ka; cbn; rewrite ?flat_map_app; cbn; rewrite ?app_nil_r;
    repeat split; reflexivity.
Qed.

Lemma startCapture_after_original (o : oracle) (streamId : string)
  (s : state) :
  Eff.exec (startCapture o streamId) s
  = Eff.exec startKeepAlive (Eff.exec (originalStartCapture o streamId) s)
  /\ Eff.returns (startCapture o streamId) s = true.
Proof.
  destruct (originalStartCapture_keeps_timer o streamId s) as (Hr & _).
  unfold Eff.exec, Eff.returns, startCapture, Eff.bind in *.
  destruct (originalStartCapture o streamId s) as [[[]|e] s1];
    [|discriminate].
  split; [reflexivity|]. apply startKeepAlive_quiet.
Qed.

(** X4. A [startCapture] that finds the recorder idle never throws. It
    sends [CAPTURE_ERROR] exactly once, with the message of the first
    host call that failed, when one did, and nothing when all succeeded;
    and the recorder records afterwards exactly when none failed. *)
Theorem startCapture_reports_the_first_failure (o : oracle)
  (streamId : string) (s : state) :
  recording_now s = None ->
  let s' := Eff.exec (startCapture o streamId) s in
  Eff.returns (startCapture o streamId) s = true
  /\ sent s'
     = sent s
       ++ match first_failure o
                  (calls_of_start
                     (bool_decide (is_Some (whisperWorker (var s)))))
          with
          | Some e => [CAPTURE_ERROR e]
          | None => []
          end
  /\ (is_Some (recording_now s')
      <-> first_failure o
            (calls_of_start (bool_decide (is_Some (whisperWorker (var s)))))
          = None).
Proof.
  intros Hnr s'. subst s'.
  destruct (startCapture_after_original o streamId s) as [-> Hret].
  destruct (originalStartCapture_outcome o streamId s Hnr) as (_ & Hs & Hi).
  destruct (startKeepAlive_quiet
              (Eff.exec (originalStartCapture o streamId) s))
    as (-> & -> & _).
  auto.
Qed.

Lemma startCapture_reports_the_first_failure_witness :
  recording_now initial = None
  /\ sent (Eff.exec (startCapture (start_fails "NotSupportedError") "stream-1")
             initial)
     = [CAPTURE_ERROR "NotSupportedError"].
Proof.
  split; [reflexivity|].
  destruct (startCapture_reports_the_first_failure
              (start_fails "NotSupportedError") "stream-1" initial eq_refl)
    as (_ & H & _).
  exact H.
Defined.

(** *** Lists of live objects *)

Lemma none_of_count {A} (p : A -> bool) (l : list A) :
  none_of p l -> count p l = 0.
Proof.
  induction l as [|a l IH]; intros H; [reflexivity|]. simpl.
  rewrite (H 0 a eq_refl). apply IH. intros i x Hi. exact (H (S i) x Hi).
Qed.

Lemma only_at_count {A} (p : A -> bool) (l : list A) (v : option nat) :
  only_at p l v -> count p l <= 1.
Proof.
  revert v. induction l as [|a l IH]; intros v H; simpl; [lia|].
  destruct (p a) eqn:Ha.
  - rewrite none_of_count; [lia|].
    intros i x Hi. destruct (p x) eqn:Hx; [|reflexivity].
    pose proof (H 0 a eq_refl Ha) as H0.
    pose proof (H (S i) x Hi Hx) as H1. congruence.
  - specialize (IH (match v with Some (S k) => Some k | _ => None end)).
    cut (count p l <= 1); [lia|]. apply IH.
    intros i x Hi Hx. rewrite (H (S i) x Hi Hx). reflexivity.
Qed.

Lemma only_at_None {A} (p : A -> bool) (l : list A) :
  only_at p l None -> none_of p l.
Proof.
  intros H i x Hi. destruct (p x) eqn:Hx; [|reflexivity].
  discriminate (H i x Hi Hx).
Qed.

Lemma none_of_only_at {A} (p : A -> bool) (l : list A) (v : option nat) :
  none_of p l -> only_at p l v.
Proof. intros H i x Hi Hx. rewrite (H i x Hi) in Hx. discriminate. Qed.

Lemma none_of_snoc {A} (p : A -> bool) (l : list A) (x : A) :
  none_of p l -> only_at p (l ++ [x]) (Some (length l)).
Proof.
  intros H i y Hi Hy.
  destruct (decide (i < length l)) as [Hlt|Hge].
  - rewrite lookup_app_l in Hi by exact Hlt. rewrite (H i y Hi) in Hy.
    discriminate.
  - pose proof (lookup_lt_Some _ _ _ Hi) as Hlen.
    rewrite length_app in Hlen. simpl in Hlen. f_equal. lia.
Qed.

Lemma only_at_clear {A} (p : A -> bool) (l : list A) (r : nat) (y : A) :
  only_at p l (Some r) -> p y = false -> none_of p (<[r := y]> l).
Proof.
  intros H Hy i x Hi. destruct (decide (r = i)) as [->|Hne].
  - pose proof (lookup_lt_Some _ _ _ Hi) as Hlt. rewrite length_insert in Hlt.
    rewrite list_lookup_insert_eq in Hi by exact Hlt. congruence.
  - rewrite list_lookup_insert_ne in Hi by exact Hne.
    destruct (p x) eqn:Hx; [|reflexivity].
    pose proof (H i x Hi Hx). congruence.
Qed.

Lemma stopCapture_shape (s : state) :
  let s' := Eff.exec stopCapture s in
  recorders (world s')
  = match recording_now s with
    | Some r => <[r := inactive]> (recorders (world s))
    | None => recorders (world s)
    end
  /\ mediaRecorder (var s') = mediaRecorder (var s)
  /\ workers (world s')
     = match whisperWorker (var s) with
       | Some w => <[w := false]> (workers (world s))
       | None => workers (world s)
       end
  /\ whisperWorker (var s') = None
  /\ timers (world s')
     = match keepAliveInterval (var s) with
       | Some t => <[t := false]> (timers (world s))
       | None => timers (world s)
       end
  /\ keepAliveInterval (var s') = None.
Proof.
  intros s'. subst s'.
  destruct s as [[ac ss mr ww ka] [st cx so wk rc tm cl]].
  unfold Eff.exec, stopCapture, originalStopCapture, stopKeepAlive,
    Eff.bind, Eff.gets. 
  destruct (recording_now _) eqn:Hnr; destruct ss, ac, ww, ka; cbn;
    repeat split; reflexivity.
Qed.

(** X19. Of the messages of the capture context, [CAPTURE_ERROR] alone
    makes the orchestrator send a command: it answers it with one
    [STOP_CAPTURE], and a transcript, a model status or a keep-alive
    with none. *)
Theorem only_CAPTURE_ERROR_stops (m : message) (sw : ServiceWorker.state) :
  ServiceWorker.commands (Eff.exec (ServiceWorker.onMessage m) sw)
  = ServiceWorker.commands sw
    ++ (if is_CAPTURE_ERROR m then [STOP_CAPTURE "offscreen"] else []).
Proof.
  destruct (is_CAPTURE_ERROR m) eqn:Hm.
  - destruct m; try discriminate.
    apply (stop_paths_send_STOP_CAPTURE sw error 0).
  - rewrite app_nil_r. apply onMessage_no_command. exact Hm.
Qed.

(** *** The audio context that a restart replaces *)

Lemma contexts_handler (ev : event) (s : state) (c : nat) :
  contexts (world s) !! c = Some true ->
  audioContext (var s) <> Some c ->
  contexts (world (Eff.exec (handler ev) s)) !! c = Some true
  /\ audioContext (var (Eff.exec (handler ev) s)) <> Some c.
Proof.
  intros Hc Hv. pose proof (lookup_lt_Some _ _ _ Hc) as Hlt.
  destruct s as [[ac ss mr ww ka] [st cx so wk rc tm cl]]. cbn in *.
  destruct ev as [o streamId| |timer|m]; cbn [handler onMessage String.eqb
    Ascii.eqb Bool.eqb].
  - assert (Happ : (cx ++ [true]) !! c = Some true)
      by (rewrite lookup_app_l by exact Hlt; exact Hc).
    assert (Hneq : Some (length cx) <> Some c) by (intros [= Heq]; lia).
    unfold_start.
    destruct (recording_now _); [destruct ka; cbn; auto|].
    destruct (o getUserMedia); [destruct ka; cbn; auto|].
    destruct (o new_AudioContext); [destruct ka; cbn; auto|].
    destruct (o createMediaStreamSource); [destruct ka; cbn; auto|].
    destruct (o connect); [destruct ka; cbn; auto|].
    destruct ww as [w|]; cbn.
    + destruct (o new_MediaRecorder); [destruct ka; cbn; auto|].
      destruct (o start); destruct ka; cbn; auto.
    + destruct (o new_Worker); [destruct ka; cbn; auto|].
      destruct (o new_MediaRecorder); [destruct ka; cbn; auto|].
      destruct (o start); destruct ka; cbn; auto.
  - unfold Eff.exec, stopCapture, originalStopCapture, stopKeepAlive,
      Eff.bind, Eff.gets.
    destruct (recording_now _); destruct ss, ac as [k|], ww, ka; cbn;
      try (split; [|discriminate]);
      try (rewrite list_lookup_insert_ne by congruence); auto.
  - unfold keepAlive_tick, Eff.exec, Eff.bind, Eff.gets. cbn.
    destruct (tm !! timer) as [[]|]; cbn; auto.
  - unfold whisperWorker_onmessage, Eff.exec. rewrite send_all_sends.
    cbn. auto.
Qed.

(** X7. [startCapture] replaces the audio context in its variable
    without closing it: when a start succeeds while the variable still
    holds an open context (one left by a start that failed later on),
    that context stays open through every event that follows, stops
    included. *)
Theorem restart_leaks_the_AudioContext (s : state) (c : nat)
  (streamId : string) (evs : list event) :
  audioContext (var s) = Some c ->
  contexts (world s) !! c = Some true ->
  recording_now s = None ->
  contexts (world (run (Start all_succeed streamId :: evs) s)) !! c
  = Some true.
Proof.
  intros Hv Hc Hnr. pose proof (lookup_lt_Some _ _ _ Hc) as Hlt.
  change (run (Start all_succeed streamId :: evs) s)
    with (run evs (Eff.exec (startCapture all_succeed streamId) s)).
  set (s1 := Eff.exec (startCapture all_succeed streamId) s).
  assert (H1 : contexts (world s1) !! c = Some true
               /\ audioContext (var s1) <> Some c).
  { subst s1. destruct s as [[ac ss mr ww ka] [st cx so wk rc tm cl]].
    cbn in *. unfold_start. rewrite Hnr.
    destruct ww, ka; cbn; (split; [rewrite lookup_app_l by exact Hlt; exact Hc
                                  |intros [= Heq]; lia]). }
  clearbody s1. clear Hv Hc Hnr Hlt s.
  revert s1 H1. induction evs as [|ev evs IH]; intros s1 [Hc Hv];
    [exact Hc|].
  change (run (ev :: evs) s1) with (run evs (Eff.exec (handler ev) s1)).
  apply IH. apply contexts_handler; assumption.
Qed.

Lemma restart_leaks_the_AudioContext_witness :
  audioContext
    (var (Eff.exec (startCapture (start_fails "NotSupportedError") "a")
            initial)) = Some 0
  /\ contexts
       (world (run [Start all_succeed "b"; Stop; Start all_succeed "c"; Stop]
                 (Eff.exec (startCapture (start_fails "NotSupportedError") "a")
                    initial))) !! 0
     = Some true.
Proof.
  split; [reflexivity|].
  apply (restart_leaks_the_AudioContext
           (Eff.exec (startCapture (start_fails "NotSupportedError") "a")
              initial)
           0 "b" [Stop; Start all_succeed "c"; Stop]);
    reflexivity.
Defined.

(** *** The orchestrator on [CAPTURE_ERROR] *)

Lemma clear_badges_returns (tabs : list nat) (sw : ServiceWorker.state) :
  exists sw', ServiceWorker.clear_badges tabs sw = (inl tt, sw')
    /\ ServiceWorker.capturingTabs sw' = ServiceWorker.capturingTabs sw.
Proof.
  revert sw. induction tabs as [|tab tabs IH]; intros sw;
    [exists sw; split; reflexivity|].
  cbn [ServiceWorker.clear_badges].
  unfold Eff.bind, ServiceWorker.act, Eff.modify.
  destruct (IH {| ServiceWorker.capturingTabs := ServiceWorker.capturingTabs sw;
                  ServiceWorker.actions :=
                    ServiceWorker.actions sw
                    ++ [ServiceWorker.setBadgeText "" (Some tab)] |})
    as (sw' & -> & Htabs).
  exists sw'. split; [reflexivity|exact Htabs].
Qed.

Lemma stopCapture_all_clears_the_tabs (sw : ServiceWorker.state) :
  ServiceWorker.capturingTabs (Eff.exec (ServiceWorker.stopCapture None) sw)
  = [].
Proof.
  unfold Eff.exec, ServiceWorker.stopCapture, Eff.bind, ServiceWorker.act,
    Eff.modify, Eff.gets, ServiceWorker.set_capturingTabs.
  cbn [ServiceWorker.capturingTabs ServiceWorker.actions].
  match goal with
  | |- context [ServiceWorker.clear_badges ?t ?w] =>
      destruct (clear_badges_returns t w) as (sw' & -> & _)
  end.
  reflexivity.
Qed.

Lemma CAPTURE_ERROR_clears_the_tabs (e : string) (sw : ServiceWorker.state) :
  ServiceWorker.capturingTabs
    (Eff.exec (ServiceWorker.onMessage (CAPTURE_ERROR e)) sw) = [].
Proof.
  change (Eff.exec (ServiceWorker.onMessage (CAPTURE_ERROR e)) sw)
    with (Eff.exec (ServiceWorker.stopCapture None)
            {| ServiceWorker.capturingTabs := ServiceWorker.capturingTabs sw;
               ServiceWorker.actions :=
                 (ServiceWorker.actions sw
                  ++ [ServiceWorker.setBadgeText "ERR" None])
                 ++ [ServiceWorker.setBadgeBackgroundColor "#ef4444"] |}).
  apply stopCapture_all_clears_the_tabs.
Qed.

End CaptureEvents.

(* ================================================================== *)
(** ** The capture context over its tasks *)

Section CaptureTasks.
Import Runtime Offscreen Pipeline Session EventLoop.

Ltac unfold_resumed :=
  unfold Eff.returns, Eff.exec, originalStartCapture_resumed,
    originalStartCapture, startKeepAlive, Eff.bind, Eff.gets, Eff.try_catch,
    mediaDevices_getUserMedia, AudioContext_new,
    AudioContext_createMediaStreamSource, AudioNode_connect, Worker_new,
    MediaRecorder_new, MediaRecorder_start, window_setInterval, guard in *.

(** [startCapture] as declared is its guard and then the rest. *)
Lemma originalStartCapture_split (o : oracle) (streamId : string)
  (s : state) :
  originalStartCapture o streamId s
  = match recording_now s with
    | Some _ => (inl tt, s)
    | None => originalStartCapture_resumed o streamId s
    end.
Proof.
  unfold originalStartCapture, originalStartCapture_resumed, Eff.bind,
    Eff.gets.
  destruct (recording_now s); reflexivity.
Qed.

(** What the rest of [startCapture] does to the workers, the timers and
    the recorders. *)
Lemma resumed_shape (o : oracle) (streamId : string) (s : state) :
  let s' := Eff.exec (originalStartCapture_resumed o streamId) s in
  ((workers (world s') = workers (world s)
    /\ whisperWorker (var s') = whisperWorker (var s))
   \/ (whisperWorker (var s) = None
       /\ workers (world s') = workers (world s) ++ [true]
       /\ whisperWorker (var s') = Some (length (workers (world s)))))
  /\ timers (world s') = timers (world s)
  /\ keepAliveInterval (var s') = keepAliveInterval (var s)
  /\ ((recorders (world s') = recorders (world s)
       /\ mediaRecorder (var s') = mediaRecorder (var s))
      \/ (exists x, recorders (world s') = recorders (world s) ++ [x]
          /\ mediaRecorder (var s') = Some (length (recorders (world s))))).
Proof.
  intros s'. subst s'.
  destruct s as [[ac ss mr ww ka] [st cx so wk rc tm cl]].
  unfold_resumed.
  destruct (o getUserMedia); [cbn; repeat split; auto|].
  destruct (o new_AudioContext); [cbn; repeat split; auto|].
  destruct (o createMediaStreamSource); [cbn; repeat split; auto|].
  destruct (o connect); [cbn; repeat split; auto|].
  destruct ww as [w|]; cbn.
  - destruct (o new_MediaRecorder); [cbn; repeat split; auto|].
    destruct (o start); cbn; rewrite ?insert_last; repeat split; eauto 6.
  - destruct (o new_Worker); [cbn; repeat split; auto|].
    destruct (o new_MediaRecorder); [cbn; repeat split; auto 6|].
    destruct (o start); cbn; rewrite ?insert_last; repeat split; eauto 6.
Qed.

(** What it sends: the message of the first host call that fails, if
    one does; and a start that fails leaves no new recorder recording. *)
Lemma resumed_outcome (o : oracle) (streamId : string) (s : state) :
  let s' := Eff.exec (originalStartCapture_resumed o streamId) s in
  let failure :=
    first_failure o
      (calls_of_start (bool_decide (is_Some (whisperWorker (var s))))) in
  sent s'
  = sent s
    ++ match failure with Some e => [CAPTURE_ERROR e] | None => [] end
  /\ (is_Some failure ->
      forall i, recorders (world s') !! i = Some recording ->
                recorders (world s) !! i = Some recording).
Proof.
  intros s' failure. subst s' failure.
  destruct s as [[ac ss mr ww ka] [st cx so wk rc tm cl]].
  assert (Hsnoc : forall i, (rc ++ [inactive]) !! i = Some recording ->
                            rc !! i = Some recording).
  { intros i Hi. destruct (decide (i < length rc)) as [Hlt|Hge].
    - rewrite lookup_app_l in Hi by exact Hlt. exact Hi.
    - rewrite lookup_app_r in Hi by lia.
      destruct (i - length rc); discriminate. }
  unfold_resumed. unfold sent, first_failure, calls_of_start. cbn.
  destruct (o getUserMedia);
    [cbn; rewrite ?flat_map_app; cbn; auto|].
  destruct (o new_AudioContext);
    [cbn; rewrite ?flat_map_app; cbn; rewrite ?app_nil_r; auto|].
  destruct (o createMediaStreamSource);
    [cbn; rewrite ?flat_map_app; cbn; rewrite ?app_nil_r; auto|].
  destruct (o connect);
    [cbn; rewrite ?flat_map_app; cbn; rewrite ?app_nil_r; auto|].
  destruct ww as [w|]; cbn.
  - destruct (o new_MediaRecorder);
      [cbn; rewrite ?flat_map_app; cbn; rewrite ?app_nil_r; auto|].
    destruct (o start); cbn; rewrite ?flat_map_app; cbn;
      rewrite ?app_nil_r; split; auto.
    intros [? [=]].
  - destruct (o new_Worker);
      [cbn; rewrite ?flat_map_app; cbn; rewrite ?app_nil_r; auto|].
    destruct (o new_MediaRecorder);
      [cbn; rewrite ?flat_map_app; cbn; rewrite ?app_nil_r; auto|].
    destruct (o start); cbn; rewrite ?flat_map_app; cbn;
      rewrite ?app_nil_r; split; auto.
    intros [? [=]].
Qed.


Lemma resumed_all_succeed (streamId : string) (s : state) :
  let s' := Eff.exec (originalStartCapture_resumed all_succeed streamId) s in
  recorders (world s') = recorders (world s) ++ [recording]
  /\ mediaRecorder (var s') = Some (length (recorders (world s)))
  /\ keepAliveInterval (var s') = keepAliveInterval (var s)
  /\ timers (world s') = timers (world s).
Proof.
  intros s'. subst s'.
  destruct s as [[ac ss mr ww ka] [st cx so wk rc tm cl]].
  unfold_resumed.
  destruct ww; cbn; rewrite insert_last; repeat split; reflexivity.
Qed.

Lemma startKeepAlive_shape (s : state) :
  let s' := Eff.exec startKeepAlive s in
  workers (world s') = workers (world s)
  /\ whisperWorker (var s') = whisperWorker (var s)
  /\ recorders (world s') = recorders (world s)
  /\ mediaRecorder (var s') = mediaRecorder (var s)
  /\ ((timers (world s') = timers (world s)
       /\ keepAliveInterval (var s') = keepAliveInterval (var s))
      \/ (keepAliveInterval (var s) = None
          /\ timers (world s') = timers (world s) ++ [true]
          /\ keepAliveInterval (var s') = Some (length (timers (world s))))).
Proof.
  intros s'. subst s'.
  destruct s as [[ac ss mr ww ka] [st cx so wk rc tm cl]].
  unfold Eff.exec, startKeepAlive, window_setInterval, Eff.bind, Eff.gets.
  destruct ka; cbn; repeat split; auto.
Qed.

Lemma startKeepAlive_sets (s : state) :
  keepAliveInterval (var s) = None ->
  timers (world (Eff.exec startKeepAlive s)) = timers (world s) ++ [true]
  /\ keepAliveInterval (var (Eff.exec startKeepAlive s))
     = Some (length (timers (world s))).
Proof.
  destruct s as [[ac ss mr ww ka] [st cx so wk rc tm cl]]. cbn.
  intros ->. split; reflexivity.
Qed.

Lemma stopCapture_sent (s : state) :
  sent (Eff.exec stopCapture s) = sent s.
Proof.
  unfold sent. rewrite stopCapture_calls, flat_map_app.
  unfold expected_teardown.
  destruct (recording_now s), (streamSource (var s)), (audioContext (var s)),
    (whisperWorker (var s)), (keepAliveInterval (var s)); cbn;
    rewrite app_nil_r; reflexivity.
Qed.

(** A tick and a message of the worker touch no variable and no object
    of the host. *)
Lemma keepAlive_tick_shape (timer : nat) (s : state) :
  let s' := Eff.exec (keepAlive_tick timer) s in
  var s' = var s
  /\ workers (world s') = workers (world s)
  /\ timers (world s') = timers (world s)
  /\ recorders (world s') = recorders (world s)
  /\ sent s'
     = sent s
       ++ match timers (world s) !! timer with
          | Some true => [KEEP_ALIVE]
          | _ => []
          end.
Proof.
  intros s'. subst s'. destruct s as [v [st cx so wk rc tm cl]].
  unfold keepAlive_tick, Eff.exec, Eff.bind, Eff.gets, sent. cbn.
  destruct (tm !! timer) as [[]|]; cbn; rewrite ?flat_map_app, ?app_nil_r;
    repeat split; reflexivity.
Qed.

Lemma whisperWorker_onmessage_shape (m : Worker.message) (s : state) :
  let s' := Eff.exec (whisperWorker_onmessage m) s in
  var s' = var s
  /\ workers (world s') = workers (world s)
  /\ timers (world s') = timers (world s)
  /\ recorders (world s') = recorders (world s).
Proof.
  intros s'. subst s'. unfold whisperWorker_onmessage, Eff.exec.
  rewrite send_all_sends. repeat split; reflexivity.
Qed.

(** *** Workers and timers under every order of the tasks *)

Lemma only_at_bool_snoc (l : list bool) (v : option nat) :
  only_at (fun b : bool => b) l v -> v = None ->
  only_at (fun b : bool => b) (l ++ [true]) (Some (length l)).
Proof.
  intros H ->. apply none_of_snoc, only_at_None, H.
Qed.

Lemma tracked_resumed (o : oracle) (streamId : string) (s : state) :
  tracked s -> tracked (Eff.exec (originalStartCapture_resumed o streamId) s).
Proof.
  intros [Hw Ht]. unfold tracked.
  destruct (resumed_shape o streamId s) as (Sw & -> & -> & _).
  split; [|exact Ht].
  destruct Sw as [[-> ->]|(Hnw & -> & ->)]; [exact Hw|].
  apply only_at_bool_snoc with (v := whisperWorker (var s)); assumption.
Qed.

Lemma tracked_startKeepAlive (s : state) :
  tracked s -> tracked (Eff.exec startKeepAlive s).
Proof.
  intros [Hw Ht]. unfold tracked.
  destruct (startKeepAlive_shape s) as (-> & -> & _ & _ & St).
  split; [exact Hw|].
  destruct St as [[-> ->]|(Hnt & -> & ->)]; [exact Ht|].
  apply only_at_bool_snoc with (v := keepAliveInterval (var s)); assumption.
Qed.

(** After [stopCapture] no worker lives and no timer runs. *)
Lemma tracked_stopCapture (s : state) :
  tracked s ->
  none_of (fun b : bool => b) (workers (world (Eff.exec stopCapture s)))
  /\ none_of (fun b : bool => b) (timers (world (Eff.exec stopCapture s))).
Proof.
  intros [Hw Ht].
  destruct (stopCapture_shape s) as (_ & _ & -> & _ & -> & _).
  split.
  - destruct (whisperWorker (var s)) as [w|].
    + apply only_at_clear; [exact Hw|reflexivity].
    + apply only_at_None, Hw.
  - destruct (keepAliveInterval (var s)) as [t|].
    + apply only_at_clear; [exact Ht|reflexivity].
    + apply only_at_None, Ht.
Qed.

Lemma tracked_step (t : task) (l : loop) :
  tracked (page l) -> tracked (page (step t l)).
Proof.
  intros H. destruct t as [msg|k o| |timer|m]; cbn [step].
  - destruct msg; cbn [listener]; try exact H.
    + destruct (String.eqb target "offscreen"); [|exact H].
      destruct (recording_now (page l)); exact H.
    + destruct (String.eqb target "offscreen"); [|exact H].
      destruct (tracked_stopCapture _ H) as [Nw Nt].
      split; apply none_of_only_at; assumption.
  - destruct (awaiting l !! k); [|exact H].
    apply tracked_resumed, H.
  - destruct (returned l); [exact H|]. apply tracked_startKeepAlive, H.
  - destruct (keepAlive_tick_shape timer (page l)) as (Hv & Hw & Ht & _).
    unfold tracked. cbn [page in_page]. rewrite Hv, Hw, Ht. exact H.
  - destruct (whisperWorker_onmessage_shape m (page l)) as (Hv & Hw & Ht & _).
    unfold tracked. cbn [page in_page]. rewrite Hv, Hw, Ht. exact H.
Qed.

Lemma tracked_run (ts : list task) (l : loop) :
  tracked (page l) -> tracked (page (run ts l)).
Proof.
  revert l. induction ts as [|t ts IH]; intros l H; [exact H|].
  cbn [run]. apply IH, tracked_step, H.
Qed.

Lemma tracked_boot : tracked (page boot).
Proof. split; intros i x Hi; destruct i; discriminate. Qed.

Lemma run_app_tasks (ts1 ts2 : list task) (l : loop) :
  run (ts1 ++ ts2) l = run ts2 (run ts1 l).
Proof.
  revert l. induction ts1 as [|t ts1 IH]; intros l; [reflexivity|].
  cbn [run app]. apply IH.
Qed.

(** X5. Whatever tasks the capture context runs, in whatever order and
    with whatever failures of the host, a second start or a stop coming
    while a start awaits [getUserMedia] included, at no time do two
    workers live or two keep-alive timers run. *)
Theorem never_two_workers_or_timers (ts : list task) :
  live_workers (page (run ts boot)) <= 1
  /\ active_timers (page (run ts boot)) <= 1.
Proof.
  destruct (tracked_run ts boot tracked_boot) as [Hw Ht].
  split; eapply only_at_count; eassumption.
Qed.

(** X6. Right after a [STOP_CAPTURE], whatever tasks ran before it and
    in whatever order, no worker lives, no keep-alive timer runs, and
    the variables hold no recording recorder and no source, context,
    worker or timer. *)
Theorem stop_releases_worker_and_timer (ts : list task) :
  let l := run (ts ++ [Command (STOP_CAPTURE "offscreen")]) boot in
  live_workers (page l) = 0 /\ active_timers (page l) = 0
  /\ released (page l).
Proof.
  intros l. subst l. rewrite run_app_tasks.
  change (page (run [Command (STOP_CAPTURE "offscreen")] (run ts boot)))
    with (Eff.exec stopCapture (page (run ts boot))).
  destruct (tracked_stopCapture _ (tracked_run ts boot tracked_boot))
    as [Nw Nt].
  unfold live_workers, active_timers.
  rewrite !none_of_count by assumption.
  repeat split; apply stopCapture_releases.
Qed.


(** *** Two starts that overlap *)

Lemma step_Settles_middle (l : loop) (before after : list string)
  (streamId : string) (o : oracle) :
  awaiting l = before ++ streamId :: after ->
  step (Settles (length before) o) l
  = {| page := Eff.exec (originalStartCapture_resumed o streamId) (page l);
       awaiting := before ++ after;
       returned := S (returned l) |}.
Proof.
  intros H. cbn [step]. rewrite H.
  rewrite (list_lookup_middle before after streamId (length before) eq_refl).
  rewrite delete_middle. reflexivity.
Qed.

Lemma recording_now_held (s : state) (r : nat) :
  recording_now s = Some r -> mediaRecorder (var s) = Some r.
Proof.
  unfold recording_now. destruct (mediaRecorder (var s)) as [r'|];
    [|discriminate].
  destruct (recorders (world s) !! r') as [[]|]; congruence.
Qed.

Lemma orphaned_step (t : task) (l : loop) (r : nat) :
  orphaned r (page l) -> orphaned r (page (step t l)).
Proof.
  intros [Hr Hv]. pose proof (lookup_lt_Some _ _ _ Hr) as Hlt.
  unfold orphaned.
  destruct t as [msg|k o| |timer|m]; cbn [step].
  - destruct msg; cbn [listener]; auto.
    + destruct (String.eqb target "offscreen"); auto.
      destruct (recording_now (page l)); auto.
    + destruct (String.eqb target "offscreen"); auto.
      cbn [page in_page].
      destruct (stopCapture_shape (page l)) as (-> & -> & _).
      split; [|exact Hv].
      destruct (recording_now (page l)) as [r'|] eqn:Hnow; [|exact Hr].
      apply recording_now_held in Hnow.
      rewrite list_lookup_insert_ne by congruence. exact Hr.
  - destruct (awaiting l !! k) as [streamId|]; auto. cbn [page].
    destruct (resumed_shape o streamId (page l)) as (_ & _ & _ & Sr).
    destruct Sr as [[-> ->]|(x & -> & ->)]; auto.
    split; [rewrite lookup_app_l by exact Hlt; exact Hr|].
    intros [= Heq]. lia.
  - destruct (returned l); auto. cbn [page].
    destruct (startKeepAlive_shape (page l)) as (_ & _ & -> & -> & _).
    auto.
  - cbn [page in_page].
    destruct (keepAlive_tick_shape timer (page l)) as (-> & _ & _ & -> & _).
    auto.
  - cbn [page in_page].
    destruct (whisperWorker_onmessage_shape m (page l)) as (-> & _ & _ & ->).
    auto.
Qed.

Lemma orphaned_run (ts : list task) (l : loop) (r : nat) :
  orphaned r (page l) -> orphaned r (page (run ts l)).
Proof.
  revert l. induction ts as [|t ts IH]; intros l H; [exact H|].
  cbn [run]. apply IH, orphaned_step, H.
Qed.

Lemma step_START_CAPTURE (l : loop) (streamId : string) :
  recording_now (page l) = None ->
  step (Command (START_CAPTURE "offscreen" streamId)) l
  = {| page := page l; awaiting := awaiting l ++ [streamId];
       returned := returned l |}.
Proof. intros H. cbn. rewrite H. reflexivity. Qed.

Lemma step_Continues (s : state) (pending : list string) (n : nat) :
  step Continues {| page := s; awaiting := pending; returned := S n |}
  = {| page := Eff.exec startKeepAlive s; awaiting := pending;
       returned := n |}.
Proof. reflexivity. Qed.

Lemma run_overlapped_starts (l : loop) (a b : string) :
  recording_now (page l) = None ->
  run (overlapped_starts (length (awaiting l)) a b) l
  = {| page :=
         Eff.exec startKeepAlive
           (Eff.exec (originalStartCapture_resumed all_succeed b)
              (Eff.exec startKeepAlive
                 (Eff.exec (originalStartCapture_resumed all_succeed a)
                    (page l))));
       awaiting := awaiting l;
       returned := returned l |}.
Proof.
  intros Hnr. unfold overlapped_starts. cbn [run].
  rewrite (step_START_CAPTURE l a Hnr).
  rewrite step_START_CAPTURE by exact Hnr. cbn [page awaiting returned].
  rewrite (step_Settles_middle
             {| page := page l; awaiting := (awaiting l ++ [a]) ++ [b];
                returned := returned l |} (awaiting l) [b] a)
    by (cbn [awaiting]; rewrite <- app_assoc; reflexivity).
  cbn [returned page awaiting]. rewrite step_Continues.
  set (s2 := Eff.exec startKeepAlive _).
  rewrite (step_Settles_middle
             {| page := s2; awaiting := awaiting l ++ [b];
                returned := returned l |} (awaiting l) [] b)
    by reflexivity.
  cbn [returned page awaiting]. rewrite step_Continues, app_nil_r.
  reflexivity.
Qed.

(** X22. Two starts overlap when the second is received before the
    promise of [getUserMedia] of the first has settled: the guard of line
    41 lets both pass. When both promises resolve, two recorders record
    at once, and the first, which the variable no longer holds, records
    through every task that follows, stops included. *)
Theorem overlapped_starts_orphan_a_recorder (l : loop) (a b : string)
  (later : list task) :
  recording_now (page l) = None ->
  let r := length (recorders (world (page l))) in
  let l' := run (overlapped_starts (length (awaiting l)) a b) l in
  recorders (world (page l')) !! r = Some recording
  /\ recorders (world (page l')) !! S r = Some recording
  /\ active_recorders (page l') = active_recorders (page l) + 2
  /\ recorders (world (page (run later l'))) !! r = Some recording.
Proof.
  intros Hnr r l'. subst r l'. rewrite (run_overlapped_starts l a b Hnr).
  set (s1 := Eff.exec (originalStartCapture_resumed all_succeed a) (page l)).
  set (s2 := Eff.exec startKeepAlive s1).
  set (s3 := Eff.exec (originalStartCapture_resumed all_succeed b) s2).
  set (s4 := Eff.exec startKeepAlive s3).
  destruct (resumed_all_succeed a (page l)) as (R1 & _).
  destruct (startKeepAlive_shape s1) as (_ & _ & R2 & _).
  destruct (resumed_all_succeed b s2) as (R3 & M3 & _).
  destruct (startKeepAlive_shape s3) as (_ & _ & R4 & M4 & _).
  fold s1 in R1. fold s2 in R2, R3, M3. fold s3 in R3, M3, R4, M4.
  fold s4 in R4, M4.
  assert (Hrec : recorders (world s4)
                 = (recorders (world (page l)) ++ [recording])
                   ++ [recording])
    by (rewrite R4, R3, R2, R1; reflexivity).
  assert (Hr : recorders (world s4) !! length (recorders (world (page l)))
               = Some recording).
  { rewrite Hrec, <- app_assoc.
    apply list_lookup_middle. reflexivity. }
  assert (Hvar : mediaRecorder (var s4)
                 = Some (S (length (recorders (world (page l)))))).
  { rewrite M4, M3, R2, R1, length_app. cbn. f_equal. lia. }
  cbn [page]. split; [exact Hr|]. split.
  { rewrite Hrec. apply list_lookup_middle. rewrite length_app. cbn. lia. }
  split.
  { unfold active_recorders. rewrite Hrec, !count_app. cbn. lia. }
  apply (orphaned_run later
           {| page := s4; awaiting := awaiting l; returned := returned l |}).
  split; [exact Hr|]. cbn [page]. rewrite Hvar. intros [= Heq]. lia.
Qed.

Lemma overlapped_starts_orphan_a_recorder_witness :
  recording_now (page boot) = None
  /\ active_recorders (page (run (overlapped_starts 0 "a" "b") boot)) = 2
  /\ recorders
       (world (page (run [Command (STOP_CAPTURE "offscreen")]
                       (run (overlapped_starts 0 "a" "b") boot)))) !! 0
     = Some recording.
Proof.
  destruct (overlapped_starts_orphan_a_recorder boot "a" "b"
              [Command (STOP_CAPTURE "offscreen")] eq_refl)
    as (_ & _ & H3 & H4).
  split; [reflexivity|]. split; [exact H3|exact H4].
Defined.

(** *** A stop that comes while a start awaits *)

Lemma run_stop_while_starting (l : loop) (a : string) :
  recording_now (page l) = None ->
  run (stop_while_starting (length (awaiting l)) a) l
  = {| page :=
         Eff.exec startKeepAlive
           (Eff.exec (originalStartCapture_resumed all_succeed a)
              (Eff.exec stopCapture (page l)));
       awaiting := awaiting l;
       returned := returned l |}.
Proof.
  intros Hnr. unfold stop_while_starting. cbn [run].
  rewrite (step_START_CAPTURE l a Hnr).
  change (step (Command (STOP_CAPTURE "offscreen")) ?x)
    with (in_page stopCapture x).
  unfold in_page. cbn [page awaiting returned].
  rewrite (step_Settles_middle
             {| page := Eff.exec stopCapture (page l);
                awaiting := awaiting l ++ [a];
                returned := returned l |} (awaiting l) [] a)
    by reflexivity.
  cbn [returned page awaiting]. rewrite step_Continues, app_nil_r.
  reflexivity.
Qed.

(** X23. A [STOP_CAPTURE] handled while a start awaits [getUserMedia]
    does not cancel the start: when the promise resolves, the recorder
    starts and the keep-alive timer is set, and the next tick of that
    timer sends [KEEP_ALIVE], although the stop was the last command. *)
Theorem stop_while_starting_is_lost (l : loop) (a : string) :
  recording_now (page l) = None ->
  let l' := run (stop_while_starting (length (awaiting l)) a) l in
  is_Some (recording_now (page l'))
  /\ exists timer,
       keepAliveInterval (var (page l')) = Some timer
       /\ timers (world (page l')) !! timer = Some true
       /\ sent (page (step (Interval timer) l')) = sent (page l') ++ [KEEP_ALIVE].
Proof.
  intros Hnr l'. subst l'. rewrite (run_stop_while_starting l a Hnr).
  cbn [page].
  set (s1 := Eff.exec stopCapture (page l)).
  set (s2 := Eff.exec (originalStartCapture_resumed all_succeed a) s1).
  set (s3 := Eff.exec startKeepAlive s2).
  destruct (stopCapture_releases (page l)) as ((_ & _ & _ & _ & K1) & _).
  destruct (resumed_all_succeed a s1) as (R2 & M2 & K2 & _).
  destruct (startKeepAlive_shape s2) as (_ & _ & R3 & M3 & _).
  fold s1 in K1, R2, M2, K2. fold s2 in R2, M2, K2, R3, M3.
  fold s3 in R3, M3.
  destruct (startKeepAlive_sets s2) as (T3 & K3); [congruence|].
  fold s3 in T3, K3.
  split.
  - unfold recording_now. rewrite M3, M2, R3, R2.
    rewrite (list_lookup_middle _ [] recording _ eq_refl). eauto.
  - exists (length (timers (world s2))).
    assert (Ht : timers (world s3) !! length (timers (world s2))
                 = Some true)
      by (rewrite T3; apply list_lookup_middle; reflexivity).
    split; [exact K3|]. split; [exact Ht|].
    destruct (keepAlive_tick_shape (length (timers (world s2))) s3)
      as (_ & _ & _ & _ & Hs).
    rewrite Ht in Hs. exact Hs.
Qed.

Lemma stop_while_starting_is_lost_witness :
  recording_now (page boot) = None
  /\ is_Some (recording_now (page (run (stop_while_starting 0 "a") boot))).
Proof.
  split; [reflexivity|].
  apply (stop_while_starting_is_lost boot "a" eq_refl).
Defined.


(** *** The heartbeat after a stop *)

Lemma forward_no_KEEP_ALIVE (m : Worker.message) :
  count is_KEEP_ALIVE (forward m) = 0.
Proof.
  unfold forward.
  destruct (Worker.text m) as [[|u t]|], (Worker.status m) as [[]|];
    reflexivity.
Qed.

Lemma idle_step (t : task) (l : loop) :
  is_START_CAPTURE t = false -> idle l ->
  idle (step t l)
  /\ count is_KEEP_ALIVE (sent (page (step t l)))
     = count is_KEEP_ALIVE (sent (page l)).
Proof.
  intros Ht (Ha & Hr & Hn). unfold idle.
  destruct t as [msg|k o| |timer|m]; cbn [step].
  - destruct msg; try discriminate; cbn [listener]; auto.
    destruct (String.eqb target "offscreen"); auto.
    cbn [in_page page awaiting returned]. rewrite stopCapture_sent.
    repeat split; auto.
    destruct (stopCapture_shape (page l)) as (_ & _ & _ & _ & -> & _).
    destruct (keepAliveInterval (var (page l))) as [timer|]; [|exact Hn].
    apply only_at_clear; [|reflexivity].
    apply none_of_only_at, Hn.
  - rewrite Ha. rewrite lookup_nil. auto.
  - rewrite Hr. auto.
  - cbn [in_page page awaiting returned].
    destruct (keepAlive_tick_shape timer (page l)) as (_ & _ & -> & _ & ->).
    repeat split; auto.
    destruct (timers (world (page l)) !! timer) as [[]|] eqn:Hl;
      rewrite ?app_nil_r; auto.
    discriminate (Hn timer true Hl).
  - cbn [in_page page awaiting returned].
    destruct (whisperWorker_onmessage_shape m (page l)) as (_ & _ & -> & _).
    destruct (whisperWorker_onmessage_sends m (page l)) as (_ & -> & _).
    rewrite count_app, forward_no_KEEP_ALIVE. repeat split; auto.
Qed.

(** X18. When no start is under way as a [STOP_CAPTURE] is handled
    (no promise of [getUserMedia] is pending and no wrapper waits), no
    [KEEP_ALIVE] is sent after it until the next [START_CAPTURE],
    whatever ticks, stops and messages of the worker follow and whatever
    ran before the stop. *)
Theorem no_heartbeat_once_stopped (ts later : list task) :
  let l := run (ts ++ [Command (STOP_CAPTURE "offscreen")]) boot in
  awaiting l = [] -> returned l = 0 ->
  forallb (fun t => negb (is_START_CAPTURE t)) later = true ->
  count is_KEEP_ALIVE (sent (page (run later l)))
  = count is_KEEP_ALIVE (sent (page l)).
Proof.
  intros l Ha Hr Hlater.
  assert (Hidle : idle l).
  { split; [exact Ha|]. split; [exact Hr|].
    subst l. rewrite run_app_tasks.
    change (page (run [Command (STOP_CAPTURE "offscreen")] (run ts boot)))
      with (Eff.exec stopCapture (page (run ts boot))).
    apply tracked_stopCapture, tracked_run, tracked_boot. }
  clearbody l. clear Ha Hr.
  revert l Hidle. induction later as [|t later IH]; intros l Hidle;
    [reflexivity|].
  cbn [forallb] in Hlater. apply andb_prop in Hlater as [Ht Hlater].
  apply negb_true_iff in Ht.
  destruct (idle_step t l Ht Hidle) as [Hidle' <-].
  cbn [run]. apply IH; assumption.
Qed.

Lemma no_heartbeat_once_stopped_witness :
  awaiting (run ([Command (START_CAPTURE "offscreen" "a");
                  Settles 0 all_succeed; Continues; Interval 0]
                 ++ [Command (STOP_CAPTURE "offscreen")]) boot) = []
  /\ returned (run ([Command (START_CAPTURE "offscreen" "a");
                     Settles 0 all_succeed; Continues; Interval 0]
                    ++ [Command (STOP_CAPTURE "offscreen")]) boot) = 0
  /\ count is_KEEP_ALIVE
       (sent (page (run [Interval 0; WorkerMessage (Worker.Text []);
                         Interval 0]
                      (run ([Command (START_CAPTURE "offscreen" "a");
                             Settles 0 all_succeed; Continues; Interval 0]
                            ++ [Command (STOP_CAPTURE "offscreen")]) boot))))
     = count is_KEEP_ALIVE
         (sent (page (run ([Command (START_CAPTURE "offscreen" "a");
                            Settles 0 all_succeed; Continues; Interval 0]
                           ++ [Command (STOP_CAPTURE "offscreen")]) boot))).
Proof.
  split; [reflexivity|]. split; [reflexivity|].
  apply (no_heartbeat_once_stopped
           [Command (START_CAPTURE "offscreen" "a");
            Settles 0 all_succeed; Continues; Interval 0]
           [Interval 0; WorkerMessage (Worker.Text []); Interval 0]);
    reflexivity.
Defined.

(** *** A failed start and the orchestrator *)

(** X8. When the promise of a start settles and the start fails, at
    whatever host call and among whatever other tasks, it sends one
    [CAPTURE_ERROR] and leaves no new recorder recording; the
    orchestrator answers with one [STOP_CAPTURE] and forgets its
    capturing tabs; and once the capture context has handled that
    command, whatever tasks came before it, no worker lives, no
    keep-alive timer runs and the variables hold nothing. *)
Theorem failed_start_reaches_the_teardown (ts others : list task)
  (k : nat) (o : oracle) (streamId e : string) (sw : ServiceWorker.state) :
  let l := run ts boot in
  awaiting l !! k = Some streamId ->
  first_failure o
    (calls_of_start (bool_decide (is_Some (whisperWorker (var (page l))))))
  = Some e ->
  let after := error_exchange k o others l sw in
  sent (page (step (Settles k o) l)) = sent (page l) ++ [CAPTURE_ERROR e]
  /\ (forall i,
        recorders (world (page (step (Settles k o) l))) !! i = Some recording ->
        recorders (world (page l)) !! i = Some recording)
  /\ ServiceWorker.commands (snd after)
     = ServiceWorker.commands sw ++ [STOP_CAPTURE "offscreen"]
  /\ ServiceWorker.capturingTabs (snd after) = []
  /\ released (page (fst after))
  /\ live_workers (page (fst after)) = 0
  /\ active_timers (page (fst after)) = 0.
Proof.
  intros l Hk Hfail after. subst after. unfold error_exchange.
  assert (Htr : tracked (page l)) by apply tracked_run, tracked_boot.
  assert (Hstep : page (step (Settles k o) l)
                  = Eff.exec (originalStartCapture_resumed o streamId)
                      (page l))
    by (cbn [step]; rewrite Hk; reflexivity).
  destruct (resumed_outcome o streamId (page l)) as [Hs Hrec].
  rewrite Hfail in Hs, Hrec. rewrite <- Hstep in Hs, Hrec.
  split; [exact Hs|]. split; [apply Hrec; eauto|].
  rewrite Hs, drop_app_length.
  change (orchestrate [CAPTURE_ERROR e] sw)
    with (Eff.exec (ServiceWorker.onMessage (CAPTURE_ERROR e)) sw).
  destruct (stop_paths_send_STOP_CAPTURE sw e 0) as [Hcmd _].
  rewrite Hcmd, drop_app_length. cbn [fst snd map].
  split; [exact Hcmd|].
  split; [apply CAPTURE_ERROR_clears_the_tabs|].
  rewrite run_app_tasks.
  set (l2 := run others (step (Settles k o) l)).
  change (page (run [Command (STOP_CAPTURE "offscreen")] l2))
    with (Eff.exec stopCapture (page l2)).
  assert (Htr2 : tracked (page l2))
    by (subst l2; apply tracked_run, tracked_step, Htr).
  destruct (tracked_stopCapture _ Htr2) as [Nw Nt].
  unfold live_workers, active_timers.
  rewrite !none_of_count by assumption.
  repeat split; apply stopCapture_releases.
Qed.

Lemma failed_start_reaches_the_teardown_witness :
  awaiting (run [Command (START_CAPTURE "offscreen" "a")] boot) !! 0
  = Some "a"%string
  /\ ServiceWorker.commands
       (snd (error_exchange 0 (denied "Permission denied") [Continues]
               (run [Command (START_CAPTURE "offscreen" "a")] boot) one_tab))
     = [STOP_CAPTURE "offscreen"]
  /\ active_timers
       (page (fst (error_exchange 0 (denied "Permission denied") [Continues]
                     (run [Command (START_CAPTURE "offscreen" "a")] boot)
                     one_tab)))
     = 0.
Proof.
  destruct (failed_start_reaches_the_teardown
              [Command (START_CAPTURE "offscreen" "a")] [Continues] 0
              (denied "Permission denied") "a" "Permission denied" one_tab
              eq_refl eq_refl)
    as (_ & _ & H3 & _ & _ & _ & H7).
  split; [reflexivity|]. split; [exact H3|exact H7].
Defined.

(** *** The events of [Session] as tasks *)

(** Handling the events of [Session] one after the other is the order of
    the tasks in which every start settles before the next event. *)
Lemma run_in_turn (evs : list event) (s : state) :
  run (flat_map in_turn evs) (between_tasks s)
  = between_tasks (Session.run evs s).
Proof.
  revert s. induction evs as [|ev evs IH]; intros s; [reflexivity|].
  cbn [flat_map]. rewrite run_app_tasks.
  change (Session.run (ev :: evs) s)
    with (Session.run evs (Eff.exec (handler ev) s)).
  rewrite <- IH. f_equal.
  destruct ev as [o streamId| |timer|m]; try reflexivity.
  cbn [in_turn run]. unfold between_tasks.
  change (handler (Session.Start o streamId)) with (startCapture o streamId).
  destruct (startCapture_after_original o streamId s) as [-> _].
  unfold Eff.exec at 2. rewrite originalStartCapture_split.
  destruct (recording_now s) eqn:Hnr.
  - cbn. rewrite Hnr. reflexivity.
  - rewrite step_START_CAPTURE by exact Hnr. reflexivity.
Qed.

End CaptureTasks.

(* ================================================================== *)
(** ** The engine over a session *)

Section EngineSessions.
Import JSString Runtime Worker Pipeline Engine.

Lemma handle_rejected (c : chunk) (e : string) :
  handle c (Some (Rejected e))
  = (Some (Rejected e), [Failure transcription_error e]).
Proof. reflexivity. Qed.

Lemma session_rejected (cs : list chunk) (e : string) :
  session cs (Some (Rejected e))
  = (Some (Rejected e), map (fun _ => [Failure transcription_error e]) cs).
Proof.
  induction cs as [|c cs IH]; [reflexivity|].
  cbn [session]. rewrite handle_rejected, IH. reflexivity.
Qed.

(** X11. When the promise of [pipeline] rejects on the first chunk, the
    worker keeps the rejected promise as its instance: it posts
    [model_loading] and a [transcription_error], never a [model_error],
    and every later chunk posts that same [transcription_error] and
    nothing else; the model is not loaded again. *)
Theorem rejected_model_is_never_reloaded (c : chunk) (cs : list chunk)
  (e : string) :
  pipeline c = Returns (Rejected e) ->
  session (c :: cs) None
  = (Some (Rejected e),
     [Status model_loading; Failure transcription_error e]
     :: map (fun _ => [Failure transcription_error e]) cs).
Proof.
  intros Hp. cbn [session].
  assert (H : handle c None
              = (Some (Rejected e),
                 [Status model_loading; Failure transcription_error e])).
  { unfold handle, Eff.exec, onmessage, getInstance, call_pipeline.
    rewrite Hp. reflexivity. }
  rewrite H, session_rejected. reflexivity.
Qed.

Lemma rejected_model_is_never_reloaded_witness :
  pipeline {| pipeline := Returns (Rejected "404");
              transcriber := Yields None |}
  = Returns (Rejected "404")
  /\ session [{| pipeline := Returns (Rejected "404");
                 transcriber := Yields None |}; spoken] None
     = (Some (Rejected "404"),
        [[Status model_loading; Failure transcription_error "404"];
         [Failure transcription_error "404"]]).
Proof.
  split; [reflexivity|].
  apply (rejected_model_is_never_reloaded
           {| pipeline := Returns (Rejected "404");
              transcriber := Yields None |} [spoken] "404").
  reflexivity.
Defined.

(** The two ways a chunk is handled: the construction throws, or an
    instance is there. *)
Lemma handle_cases (c : chunk) (inst : option promise) :
  (exists e, inst = None /\ pipeline c = Throws e
     /\ handle c inst
        = (None, [Status model_loading; Failure model_error e;
                  Failure transcription_error e]))
  \/ (exists p, fst (handle c inst) = Some p
        /\ (inst = Some p \/ (inst = None /\ pipeline c = Returns p))
        /\ snd (handle c inst)
           = match inst with
             | Some _ => []
             | None => [Status model_loading]
             end
             ++ snd (handle c (Some p))).
Proof.
  destruct inst as [[|e]|].
  - right. exists Fulfilled. rewrite handle_loaded. auto.
  - right. exists (Rejected e). auto.
  - destruct (pipeline c) as [e|[|e]] eqn:Hp.
    + left. exists e. repeat split.
      unfold handle, Eff.exec, onmessage, getInstance, call_pipeline.
      rewrite Hp. reflexivity.
    + right. exists Fulfilled. rewrite (handle_first c Hp). auto.
    + right. exists (Rejected e). repeat split; auto;
        unfold handle, Eff.exec, onmessage, getInstance, call_pipeline;
        rewrite Hp; reflexivity.
Qed.

Lemma session_loaded_no_loading (cs : list chunk) (p : promise) :
  count is_model_loading (concat (snd (session cs (Some p)))) = 0.
Proof.
  induction cs as [|c cs IH]; [reflexivity|].
  cbn [session].
  assert (H : handle c (Some p) = (Some p, snd (handle c (Some p)))
              /\ count is_model_loading (snd (handle c (Some p))) = 0).
  { destruct p as [|e]; [|split; reflexivity].
    rewrite handle_loaded. split; [reflexivity|].
    destruct (transcriber c); reflexivity. }
  destruct H as [H1 H2]. rewrite H1.
  destruct (session cs (Some p)) as [inst mss]. cbn [fst snd concat] in *.
  rewrite count_app, H2, IH. reflexivity.
Qed.

(** X12. Over a session, [model_loading] is posted once for every
    construction of the pipeline: on each chunk while the construction
    throws, and for the last time on the first chunk whose construction
    returns a promise. *)
Theorem model_loading_once_per_attempt (cs : list chunk) :
  count is_model_loading (session_posts cs) = attempts cs.
Proof.
  unfold session_posts. induction cs as [|c cs IH]; [reflexivity|].
  cbn [session attempts].
  destruct (pipeline c) as [e|p] eqn:Hp.
  - assert (H : handle c None
                = (None, [Status model_loading; Failure model_error e;
                          Failure transcription_error e])).
    { unfold handle, Eff.exec, onmessage, getInstance, call_pipeline.
      rewrite Hp. reflexivity. }
    rewrite H. destruct (session cs None) as [inst mss].
    cbn [fst snd concat] in *. rewrite count_app, IH. reflexivity.
  - destruct (handle_cases c None) as [(e & _ & He & _)|(q & Hq & Hor & Hs)];
      [congruence|].
    destruct Hor as [|[_ Hpq]]; [discriminate|].
    assert (q = p) as -> by congruence.
    destruct (handle c None) as [inst ms] eqn:Hh. cbn [fst snd] in *.
    subst inst ms.
    pose proof (session_loaded_no_loading cs p) as Hz.
    destruct (session cs (Some p)) as [inst mss]. cbn [fst snd concat] in *.
    rewrite !count_app, Hz.
    destruct p as [|e]; [|reflexivity].
    rewrite handle_loaded. destruct (transcriber c); reflexivity.
Qed.

Lemma forward_TRANSCRIPT_READY_count (m : Worker.message) :
  count is_TRANSCRIPT_READY (Offscreen.forward m)
  = match text m with
    | Some t => if nonempty t then 1 else 0
    | None => 0
    end.
Proof.
  unfold Offscreen.forward.
  destruct (text m) as [[|u t]|], (status m) as [[]|]; reflexivity.
Qed.

Lemma session_loaded_transcripts (cs : list chunk) :
  count is_TRANSCRIPT_READY
    (relayed (concat (snd (session cs (Some Fulfilled)))))
  = count speaks cs.
Proof.
  induction cs as [|c cs IH]; [reflexivity|].
  cbn [session]. rewrite handle_loaded.
  destruct (session cs (Some Fulfilled)) as [inst mss].
  cbn [fst snd concat count] in *. unfold relayed in *.
  rewrite flat_map_app, count_app, IH. f_equal.
  unfold speaks. cbn [flat_map]. rewrite !count_app.
  rewrite forward_TRANSCRIPT_READY_count. cbn [text Status].
  destruct (transcriber c) as [e|t]; cbn [flat_map];
    rewrite ?app_nil_r, ?forward_TRANSCRIPT_READY_count; cbn;
    [reflexivity|]. destruct (nonempty (trimmed t)); reflexivity.
Qed.

(** X20. In a session whose model loads on the first chunk, the
    orchestrator receives one [TRANSCRIPT_READY] for each chunk whose
    inference yields a text that is not empty once trimmed, and none
    for a silent chunk or for a chunk whose inference fails. *)
Theorem one_transcript_per_spoken_chunk (c : chunk) (cs : list chunk) :
  pipeline c = Returns Fulfilled ->
  count is_TRANSCRIPT_READY (session_sent (c :: cs)) = count speaks (c :: cs).
Proof.
  intros Hp. unfold session_sent, session_posts.
  pose proof (session_loaded_transcripts (c :: cs)) as H.
  cbn [session] in *. rewrite (handle_first c Hp).
  destruct (handle c (Some Fulfilled)) as [inst ms] eqn:Hh.
  rewrite handle_loaded in Hh. injection Hh as <- <-.
  destruct (session cs (Some Fulfilled)) as [inst mss].
  cbn [fst snd concat] in *. rewrite <- H. reflexivity.
Qed.

Lemma one_transcript_per_spoken_chunk_witness :
  pipeline spoken = Returns Fulfilled
  /\ count is_TRANSCRIPT_READY (session_sent [spoken; silent; garbled; spoken])
     = 2.
Proof.
  split; [reflexivity|].
  apply (one_transcript_per_spoken_chunk spoken [silent; garbled; spoken]).
  reflexivity.
Defined.

(** *** [trim] *)

Lemma trimStart_head (s : jsstring) (c : N) (s' : jsstring) :
  trimStart s = c :: s' -> is_white_space c = false.
Proof.
  induction s as [|a s IH]; [discriminate|]. simpl.
  destruct (is_white_space a) eqn:Ha; [exact IH|].
  intros [= <- _]. exact Ha.
Qed.

Lemma trimStart_suffix (s : jsstring) :
  exists p, s = p ++ trimStart s /\ Forall (fun c => is_white_space c = true) p.
Proof.
  induction s as [|a s (p & Hp & Hall)]; [exists []; split; [reflexivity|constructor]|].
  simpl. destruct (is_white_space a) eqn:Ha.
  - exists (a :: p). split; [simpl; congruence|constructor; assumption].
  - exists []. split; [reflexivity|constructor].
Qed.

Lemma trimStart_id (s : jsstring) :
  head s = None \/ (exists c, head s = Some c /\ is_white_space c = false) ->
  trimStart s = s.
Proof.
  destruct s as [|a s]; [reflexivity|]. simpl.
  intros [H|(c & [= <-] & Hc)]; [discriminate|]. rewrite Hc. reflexivity.
Qed.

Lemma trimEnd_last (s t : jsstring) (c : N) :
  trimEnd s = t ++ [c] -> is_white_space c = false.
Proof.
  unfold trimEnd. intros H. apply (f_equal (@rev N)) in H.
  rewrite rev_involutive, rev_app_distr in H. simpl in H.
  exact (trimStart_head _ _ _ H).
Qed.

Lemma trimEnd_prefix (s : jsstring) :
  exists q, s = trimEnd s ++ q.
Proof.
  unfold trimEnd. destruct (trimStart_suffix (rev s)) as (p & Hp & _).
  exists (rev p). rewrite <- rev_app_distr, <- Hp, rev_involutive.
  reflexivity.
Qed.

Lemma trim_head (s : jsstring) (c : N) (t : jsstring) :
  trim s = c :: t -> is_white_space c = false.
Proof.
  unfold trim. intros H.
  destruct (trimEnd_prefix (trimStart s)) as (q & Hq).
  rewrite H in Hq. simpl in Hq. exact (trimStart_head _ _ _ Hq).
Qed.

Lemma trim_last (s t : jsstring) (c : N) :
  trim s = t ++ [c] -> is_white_space c = false.
Proof. unfold trim. apply trimEnd_last. Qed.

Lemma trimEnd_id (s : jsstring) :
  (forall t c, s = t ++ [c] -> is_white_space c = false) -> trimEnd s = s.
Proof.
  intros H. unfold trimEnd. rewrite trimStart_id; [apply rev_involutive|].
  destruct (rev s) as [|c r] eqn:Hr; [left; reflexivity|].
  right. exists c. split; [reflexivity|].
  apply (H (rev r) c). rewrite <- (rev_involutive s), Hr. reflexivity.
Qed.

Lemma trim_idempotent (s : jsstring) : trim (trim s) = trim s.
Proof.
  unfold trim at 1. rewrite trimStart_id.
  - apply trimEnd_id. intros t c Ht. exact (trim_last s t c Ht).
  - destruct (trim s) as [|c t] eqn:Ht; [left; reflexivity|].
    right. exists c. split; [reflexivity|]. exact (trim_head s c t Ht).
Qed.

(** *** What the orchestrator receives as transcripts *)

Lemma handle_texts (c : chunk) (inst : option promise) (m : Worker.message)
  (tr : jsstring) :
  In m (snd (handle c inst)) -> text m = Some tr ->
  exists t, tr = trimmed t.
Proof.
  intros Hin Htext.
  destruct (handle_cases c inst) as [(e & _ & _ & H)|(p & _ & _ & H)];
    rewrite H in Hin.
  - cbn in Hin. destruct Hin as [<-|[<-|[<-|[]]]]; discriminate.
  - apply in_app_or in Hin. destruct Hin as [Hin|Hin].
    + destruct inst; cbn in Hin; [destruct Hin|].
      destruct Hin as [<-|[]]. discriminate.
    + destruct p as [|e].
      * rewrite handle_loaded in Hin. cbn in Hin.
        destruct Hin as [<-|Hin]; [discriminate|].
        destruct (transcriber c) as [e|t]; destruct Hin as [<-|[]];
          [discriminate|]. exists t. cbn in Htext. congruence.
      * cbn in Hin. destruct Hin as [<-|[]]. discriminate.
Qed.

Lemma session_texts (cs : list chunk) (inst : option promise)
  (m : Worker.message) (tr : jsstring) :
  In m (concat (snd (session cs inst))) -> text m = Some tr ->
  exists t, tr = trimmed t.
Proof.
  revert inst. induction cs as [|c cs IH]; intros inst Hin Htext;
    [destruct Hin|].
  cbn [session] in Hin.
  destruct (handle c inst) as [inst' ms] eqn:Hh.
  specialize (IH inst').
  destruct (session cs inst') as [inst'' mss]. cbn [snd concat] in *.
  apply in_app_or in Hin. destruct Hin as [Hin|Hin].
  - apply (handle_texts c inst m tr); [rewrite Hh; exact Hin|exact Htext].
  - exact (IH Hin Htext).
Qed.

(** X14. Every transcript the orchestrator receives as
    [TRANSCRIPT_READY], in any session, is a non-empty string that
    neither starts nor ends with white space (trimming it again changes
    nothing). *)
Theorem transcripts_arrive_trimmed (cs : list chunk)
  (inst : option promise) (tr : jsstring) :
  In (Runtime.TRANSCRIPT_READY tr)
    (relayed (concat (snd (session cs inst)))) ->
  tr <> []
  /\ trim tr = tr
  /\ (forall c t, tr = c :: t -> is_white_space c = false)
  /\ (forall t c, tr = t ++ [c] -> is_white_space c = false).
Proof.
  intros Hin. unfold relayed in Hin. apply in_flat_map in Hin.
  destruct Hin as (m & Hm & Hf).
  apply forward_TRANSCRIPT_READY in Hf. destruct Hf as [Htext Hne].
  destruct (session_texts cs inst m tr Hm Htext) as (t & ->).
  split; [exact Hne|].
  destruct t as [[s|]|]; cbn [trimmed] in *; try congruence.
  split; [apply trim_idempotent|]. split.
  - intros c u Hu. exact (trim_head s c u Hu).
  - intros u c Hu. exact (trim_last s u c Hu).
Qed.

Lemma transcripts_arrive_trimmed_witness :
  In (Runtime.TRANSCRIPT_READY (of_string "hello"))
    (relayed (concat (snd (session [spoken] None))))
  /\ trim (of_string "hello") = of_string "hello".
Proof.
  assert (H : In (Runtime.TRANSCRIPT_READY (of_string "hello"))
                (relayed (concat (snd (session [spoken] None)))))
    by (vm_compute; auto).
  split; [exact H|].
  exact (proj1 (proj2 (transcripts_arrive_trimmed [spoken] None _ H))).
Defined.

End EngineSessions.

(* ================================================================== *)
(** ** The engine when a promise does not settle *)

Section EngineSuspended.
Import JSString Runtime Worker Engine.

(** With both promises settling, the handler is the one of [Worker] and
    runs to its end. *)
Lemma handle_settled (c : chunk) (inst : option promise) :
  Suspension.handle (Suspension.settled c) inst = handle c inst
  /\ Suspension.completes (Suspension.settled c) inst = true.
Proof.
  destruct c as [pc tc].
  unfold Suspension.handle, Suspension.completes, Suspension.onmessage,
    handle, onmessage, getInstance, call_pipeline, call_transcriber,
    Eff.exec.
  destruct inst as [[|e]|], pc as [e'|[|e']], tc as [e''|[[[|u s]|]|]];
    split; reflexivity.
Qed.

(** The closing message of a chunk is the last one its handler posts. *)
Lemma answer_comes_last (c : chunk) (inst : option promise) :
  exists posts answer,
    snd (handle c inst) = posts ++ [answer]
    /\ is_answer answer = true
    /\ count is_answer posts = 0.
Proof.
  destruct c as [pc tc].
  unfold handle, onmessage, getInstance, call_pipeline, call_transcriber,
    Eff.exec.
  destruct inst as [[|e]|], pc as [e'|[|e']], tc as [e''|[[[|u s]|]|]];
    cbn;
    first
      [ eexists [], _; repeat split; reflexivity
      | eexists [_], _; repeat split; reflexivity
      | eexists [_; _], _; repeat split; reflexivity ].
Qed.

(** X13. The handler of a chunk closes it with exactly one message, a
    text or a [transcription_error], when it runs to its end, and that
    message is the last it posts: a handler that is cut short, wherever
    it is, has posted none. It runs to its end unless a promise it
    awaits stays pending: the instance, or the transcript once the
    instance is fulfilled; it has then posted the first messages of the
    handler of [Worker] and no closing one. With both promises settling
    it is the handler of [Worker]. *)
Theorem one_answer_when_the_promises_settle (k : Suspension.course)
  (inst : option promise) :
  count is_answer (snd (Suspension.handle k inst))
  = (if Suspension.completes k inst then 1 else 0)
  /\ Suspension.completes k inst = negb (Suspension.stalls k inst)
  /\ (exists rest,
        snd (handle (Suspension.of_chunk k) inst)
        = snd (Suspension.handle k inst) ++ rest)
  /\ (forall n, n < length (snd (handle (Suspension.of_chunk k) inst)) ->
        count is_answer (take n (snd (handle (Suspension.of_chunk k) inst)))
        = 0)
  /\ (Suspension.instance_promise k = Suspension.Settled ->
      Suspension.transcript_promise k = Suspension.Settled ->
      Suspension.handle k inst = handle (Suspension.of_chunk k) inst
      /\ Suspension.completes k inst = true).
Proof.
  split; [|split; [|split; [|split]]].
  - destruct k as [[pc tc] ip tp].
    unfold Suspension.handle, Suspension.completes, Suspension.onmessage,
      getInstance, call_pipeline, call_transcriber, Eff.exec.
    destruct inst as [[|e]|], pc as [e'|[|e']], ip, tp,
      tc as [e''|[[[|u s]|]|]]; reflexivity.
  - destruct k as [[pc tc] ip tp].
    unfold Suspension.completes, Suspension.stalls,
      Suspension.awaited_instance, Suspension.onmessage,
      getInstance, call_pipeline, call_transcriber.
    destruct inst as [[|e]|], pc as [e'|[|e']], ip, tp,
      tc as [e''|[[[|u s]|]|]]; reflexivity.
  - destruct k as [[pc tc] ip tp].
    unfold Suspension.handle, Suspension.onmessage, handle, onmessage,
      getInstance, call_pipeline, call_transcriber, Eff.exec.
    destruct inst as [[|e]|], pc as [e'|[|e']], ip, tp,
      tc as [e''|[[[|u s]|]|]]; cbn;
      first
        [ exists []; reflexivity
        | eexists [_]; reflexivity
        | eexists [_; _]; reflexivity
        | eexists [_; _; _]; reflexivity ].
  - intros n Hn.
    destruct (answer_comes_last (Suspension.of_chunk k) inst)
      as (posts & answer & Hp & _ & Hc).
    rewrite Hp in Hn |- *. rewrite length_app in Hn. cbn in Hn.
    rewrite take_app_le by lia.
    assert (Hle : forall l m, count is_answer (take m l)
                              <= count is_answer l).
    { clear. induction l as [|x l IH]; intros [|m]; cbn; try lia.
      specialize (IH m). lia. }
    specialize (Hle posts n). lia.
  - destruct k as [c ip tp]. cbn. intros -> ->.
    apply (handle_settled c inst).
Qed.

Lemma one_answer_when_the_promises_settle_witness :
  Suspension.instance_promise (Suspension.settled Pipeline.spoken)
  = Suspension.Settled
  /\ Suspension.transcript_promise (Suspension.settled Pipeline.spoken)
     = Suspension.Settled
  /\ Suspension.handle (Suspension.settled Pipeline.spoken) None
     = handle Pipeline.spoken None
  /\ Suspension.completes (Suspension.settled Pipeline.spoken) None = true.
Proof.
  split; [reflexivity|]. split; [reflexivity|].
  apply (one_answer_when_the_promises_settle
           (Suspension.settled Pipeline.spoken) None); reflexivity.
Defined.

End EngineSuspended.

(* ================================================================== *)
(** ** The history of transcripts *)

Section StorageFacts.
Import JSString Storage.
Local Open Scope Z_scope.

Lemma take_app_take {A} (n : nat) (l k : list A) :
  take n (l ++ take n k) = take n (l ++ k).
Proof.
  rewrite !take_app, take_take. f_equal. f_equal. lia.
Qed.

Lemma entry_eta (e : entry) :
  {| transcript := transcript e; timestamp := timestamp e |} = e.
Proof. destruct e; reflexivity. Qed.

Lemma save_one (t : jsstring) (ts : Z) (s : sync) :
  snd (saveRecentTranscript no_faults t ts s)
  = Some (take 10 ({| transcript := t; timestamp := ts |} :: stored s)).
Proof. reflexivity. Qed.

Lemma save_all_capped (items : list entry) (l : list entry) :
  save_all items (Some (take 10 l)) = Some (take 10 (rev items ++ l)).
Proof.
  revert l. induction items as [|item items IH]; intros l; [reflexivity|].
  cbn [save_all]. rewrite save_one, entry_eta.
  change (stored (Some (take 10 l))) with (take 10 l).
  change (item :: take 10 l) with ([item] ++ take 10 l).
  rewrite take_app_take, IH. cbn [rev]. rewrite <- app_assoc. reflexivity.
Qed.

(** X15. After any saves in a row, the first on any stored history, the
    history is the ten newest entries, newest first: the saved ones in
    reverse order of saving, then what was stored before, cut at ten. *)
Theorem history_keeps_the_ten_newest (item : entry) (items : list entry)
  (s : sync) :
  save_all (item :: items) s
  = Some (take 10 (rev (item :: items) ++ stored s)).
Proof.
  cbn [save_all]. rewrite save_one, entry_eta, save_all_capped.
  cbn [rev]. rewrite <- app_assoc. reflexivity.
Qed.

(** X16. A transcript saved with a timestamp younger than [maxAge] is
    the first that [getRecentTranscripts] returns; it is followed by the
    nine newest of the older entries that are young enough, in their
    order. *)
Theorem saved_transcript_is_read_back (t : jsstring) (ts now maxAge : Z)
  (s : sync) :
  now - maxAge < ts ->
  getRecentTranscripts no_faults now maxAge
    (snd (saveRecentTranscript no_faults t ts s))
  = {| transcript := t; timestamp := ts |}
    :: getRecentTranscripts no_faults now maxAge (Some (take 9 (stored s))).
Proof.
  intros Hts. unfold getRecentTranscripts, saveRecentTranscript, savePref.
  cbn. fold (stored s).
  assert (H : (now - maxAge <? ts) = true) by (apply Z.ltb_lt; exact Hts).
  rewrite H. reflexivity.
Qed.

Lemma saved_transcript_is_read_back_witness :
  1000 - 300000 < 900
  /\ getRecentTranscripts no_faults 1000 300000
       (snd (saveRecentTranscript no_faults (of_string "hi") 900 None))
     = [{| transcript := of_string "hi"; timestamp := 900 |}].
Proof.
  split; [lia|].
  apply (saved_transcript_is_read_back (of_string "hi") 900 1000 300000 None).
  lia.
Defined.

End StorageFacts.

(* ================================================================== *)
(** ** The history when the key holds any value *)

Section AnyStorageFacts.
Import JSString Storage.
Local Open Scope Z_scope.

(** On a key that holds an array of entries or is not set,
    [saveRecentTranscript] is the function of [Storage]. *)
Lemma saveRecentTranscript_of_history (f : faults) (t : jsstring) (ts : Z)
  (s : Storage.sync) :
  AnyStorage.saveRecentTranscript f t ts (AnyStorage.of_history s)
  = (fst (saveRecentTranscript f t ts s),
     AnyStorage.of_history (snd (saveRecentTranscript f t ts s))).
Proof.
  unfold AnyStorage.saveRecentTranscript, saveRecentTranscript,
    AnyStorage.getPref, getPref, AnyStorage.savePref, savePref.
  destruct (get_rejects f), (set_rejects f), s; cbn;
    rewrite <- ?fmap_take; reflexivity.
Qed.

(** X17. [saveRecentTranscript] reports a failure in one case only: the
    read succeeds and finds a value that is not an array, the store then
    staying as it is. In every other case it reports success, also when
    the write is rejected and nothing is stored; and when the read is
    rejected and the write is not, the history is replaced by the new
    entry alone, the older transcripts being lost. *)
Theorem saveRecentTranscript_outcome (f : faults) (t : jsstring) (ts : Z)
  (s : AnyStorage.sync) :
  let r := AnyStorage.saveRecentTranscript f t ts s in
  fst r
  = match AnyStorage.reads_no_array f s with
    | Some e => failure e
    | None => success
    end
  /\ (is_Some (AnyStorage.reads_no_array f s) -> snd r = s)
  /\ (is_Some (set_rejects f) -> snd r = s)
  /\ (set_rejects f = None -> is_Some (get_rejects f) ->
      snd r
      = Some (AnyStorage.Array
                [AnyStorage.Entry {| transcript := t; timestamp := ts |}])).
Proof.
  intros r. subst r.
  unfold AnyStorage.saveRecentTranscript, AnyStorage.reads_no_array,
    AnyStorage.getPref, AnyStorage.savePref.
  destruct (get_rejects f) as [eg|], (set_rejects f) as [es|],
    s as [[items|e]|]; cbn;
    repeat split; try reflexivity; try discriminate;
    intros [? [=]] || (intros _ [? [=]]) || idtac.
Qed.

Lemma saveRecentTranscript_outcome_witness :
  set_rejects {| get_rejects := None; set_rejects := Some "QUOTA_BYTES"%string |}
  = Some "QUOTA_BYTES"%string
  /\ AnyStorage.saveRecentTranscript
       {| get_rejects := None; set_rejects := Some "QUOTA_BYTES"%string |}
       (of_string "hello") 1000 (Some (AnyStorage.Array []))
     = (success, Some (AnyStorage.Array [])).
Proof.
  destruct (saveRecentTranscript_outcome
              {| get_rejects := None;
                 set_rejects := Some "QUOTA_BYTES"%string |}
              (of_string "hello") 1000 (Some (AnyStorage.Array [])))
    as (H1 & _ & H3 & _).
  split; [reflexivity|].
  apply injective_projections; [exact H1|]. apply H3. eauto.
Defined.

End AnyStorageFacts.

(* ================================================================== *)
(** ** The chunks of the recorder *)

Section ChunkingFacts.
Import JSNumber Resampler Pipeline Chunking.

(** X9. A chunk that arrives once [stopCapture] has run, as the last one
    of a stopped recorder does, never reaches the worker: the handler
    throws on the audio context that is gone, before it decodes, unless
    the blob is empty, which it ignores. *)
Theorem chunk_after_stop_is_dropped (cs : Offscreen.state)
  (h : list (list float)) (received : list (list float)) (ev : blob_event) :
  let s := {| capture := Eff.exec Offscreen.stopCapture cs; store := h;
              inbox := received |} in
  inbox (Eff.exec (ondataavailable ev) s) = received
  /\ store (Eff.exec (ondataavailable ev) s) = h
  /\ Eff.returns (ondataavailable ev) s = negb (0 <? size ev)%N.
Proof.
  intros s. subst s.
  destruct (stopCapture_releases cs) as [(_ & _ & Hctx & _) _].
  unfold ondataavailable, Eff.exec at 1 3, Eff.returns, Eff.bind, Eff.gets.
  destruct (0 <? size ev)%N; [|repeat split; reflexivity].
  cbn [capture fst snd]. rewrite Hctx. repeat split; reflexivity.
Qed.

(** X10. While the context listens, a chunk that decodes to [L] samples
    at a rate other than 16000 Hz reaches the worker as one array of
    [round(L / (rate / 16000))] samples; its buffer is transferred, so
    the array of the sender is left empty, and the decoded samples stay
    as they were. *)
Theorem chunk_is_resampled_and_transferred (s : state) (ev : blob_event)
  (channel0 : list float) (sampleRate : float) (context worker n : nat) :
  Offscreen.audioContext (Offscreen.var (capture s)) = Some context ->
  Offscreen.whisperWorker (Offscreen.var (capture s)) = Some worker ->
  (0 < size ev)%N ->
  decoding_of ev = Decoded channel0 sampleRate ->
  strict_eq sampleRate 16000 = false ->
  ToIndex (spec_outputLength (length channel0) sampleRate 16000) = Some n ->
  exists audio,
    inbox (Eff.exec (ondataavailable ev) s) = inbox s ++ [audio]
    /\ length audio = n
    /\ store (Eff.exec (ondataavailable ev) s) !! S (length (store s))
       = Some []
    /\ store (Eff.exec (ondataavailable ev) s) !! length (store s)
       = Some channel0.
Proof.
  intros Hctx Hw Hsize Hdec Hne Hn.
  assert (Hin : (store s ++ [channel0]) !! length (store s) = Some channel0).
  { rewrite lookup_app_r by lia. rewrite Nat.sub_diag. reflexivity. }
  destruct (resampleAudio_output (store s ++ [channel0]) (length (store s))
              channel0 sampleRate 16000 n Hin Hne Hn)
    as (h' & output & Hres & Hout & Hlen & _ & Hkeep).
  rewrite length_app in *. cbn [length] in *.
  replace (length (store s) + 1) with (S (length (store s))) in * by lia.
  specialize (Hkeep (length (store s)) ltac:(lia)). rewrite Hin in Hkeep.
  exists output.
  unfold ondataavailable, Eff.exec, Eff.bind, Eff.gets, getChannelData,
    resample, postMessage_transfer.
  apply N.ltb_lt in Hsize. rewrite Hsize, Hctx, Hdec.
  cbn [capture store inbox]. rewrite Hres.
  cbn [capture store inbox]. rewrite Hw.
  cbn [capture store inbox]. rewrite Hout.
  cbn [capture store inbox snd].
  split; [reflexivity|]. split; [exact Hlen|]. split.
  - apply list_lookup_insert_eq. eapply lookup_lt_Some; eauto.
  - rewrite list_lookup_insert_ne by lia. exact Hkeep.
Qed.

(** X21. A chunk decoded at 16000 Hz is not copied: the worker receives
    the decoded samples themselves, and the transfer leaves the decoded
    array of the sender empty. *)
Theorem chunk_at_target_rate_is_transferred (s : state) (ev : blob_event)
  (channel0 : list float) (sampleRate : float) (context worker : nat) :
  Offscreen.audioContext (Offscreen.var (capture s)) = Some context ->
  Offscreen.whisperWorker (Offscreen.var (capture s)) = Some worker ->
  (0 < size ev)%N ->
  decoding_of ev = Decoded channel0 sampleRate ->
  strict_eq sampleRate 16000 = true ->
  inbox (Eff.exec (ondataavailable ev) s) = inbox s ++ [channel0]
  /\ store (Eff.exec (ondataavailable ev) s) = store s ++ [[]].
Proof.
  intros Hctx Hw Hsize Hdec Heq.
  unfold ondataavailable, Eff.exec, Eff.bind, Eff.gets, getChannelData,
    resample, postMessage_transfer, resampleAudio.
  apply N.ltb_lt in Hsize. rewrite Hsize, Hctx, Hdec.
  cbn [capture store inbox]. rewrite Heq.
  cbn [capture store inbox]. rewrite Hw.
  cbn [capture store inbox].
  rewrite lookup_app_r by lia. rewrite Nat.sub_diag. cbn [lookup list_lookup].
  cbn [capture store inbox snd]. split; [reflexivity|].
  apply (insert_last (store s) channel0 []).
Qed.

Lemma chunk_at_target_rate_is_transferred_witness :
  strict_eq 16000 16000 = true
  /\ inbox (Eff.exec
              (ondataavailable
                 {| size := 8; decoding_of := Decoded [0.5; 0.25]%float 16000 |})
              {| capture :=
                   Eff.exec (Offscreen.startCapture Offscreen.all_succeed "a")
                     Offscreen.initial;
                 store := []; inbox := [] |})
     = [[0.5; 0.25]%float].
Proof.
  split; [reflexivity|].
  apply (chunk_at_target_rate_is_transferred
           {| capture :=
                Eff.exec (Offscreen.startCapture Offscreen.all_succeed "a")
                  Offscreen.initial;
              store := []; inbox := [] |}
           {| size := 8; decoding_of := Decoded [0.5; 0.25]%float 16000 |}
           [0.5; 0.25]%float 16000 0 0); reflexivity.
Defined.

Lemma chunk_is_resampled_and_transferred_witness :
  strict_eq 44100 16000 = false
  /\ ToIndex (spec_outputLength 441 44100 16000) = Some 160
  /\ exists audio,
       inbox (Eff.exec
                (ondataavailable
                   {| size := 1024;
                      decoding_of := Decoded (replicate 441 0.5%float) 44100 |})
                {| capture :=
                     Eff.exec (Offscreen.startCapture Offscreen.all_succeed "a")
                       Offscreen.initial;
                   store := []; inbox := [] |})
       = [audio]
       /\ length audio = 160.
Proof.
  split; [reflexivity|]. split; [vm_compute; reflexivity|].
  destruct (chunk_is_resampled_and_transferred
              {| capture :=
                   Eff.exec (Offscreen.startCapture Offscreen.all_succeed "a")
                     Offscreen.initial;
                 store := []; inbox := [] |}
              {| size := 1024;
                 decoding_of := Decoded (replicate 441 0.5%float) 44100 |}
              (replicate 441 0.5%float) 44100 0 0 160
              eq_refl eq_refl eq_refl eq_refl eq_refl
              ltac:(vm_compute; reflexivity))
    as (audio & H1 & H2 & _).
  exists audio. split; [exact H1|exact H2].
Defined.

End ChunkingFacts.
